(** * Remirror: link utilities, SSR transformer pipeline, helper aggregation

    A shallow embedding of three source files of the repository:

    - [@remirror/extension-enhanced-link/src/enhanced-link-utils.ts]
      ([extractHref], [isSetEqual]) in [Module EnhancedLinkUtils];
    - the React SSR extension ([onInitialize], [ssrTransformer],
      [createSSRTransformer]) in [Module ReactSSR];
    - the helpers extension ([onCreate], [onView]) in [Module Helpers].

    Thrown JavaScript exceptions are values of [Error] carried in the left
    summand of [Result].  Objects that the source mutates after handing out
    a reference (the [ssrTransformers] array, the [helpers] record) live in a
    heap of closure frames, and the manager store keeps references into it. *)

From Stdlib Require Import String Ascii.
From stdpp Require Import base option list gmap strings.

Local Open Scope string_scope.
Local Open Scope list_scope.

(** ** Thrown values *)

(** The two members of [ErrorConstant] (package [@remirror/core-constants])
    that the embedded code names. *)
Inductive ErrorConstant : Type :=
  | DUPLICATE_HELPER_NAMES
  | HELPERS_CALLED_IN_OUTER_SCOPE.

(** What a [throw] carries: an error raised through the framework's
    [invariant] (its code and message detail), or any other value thrown by
    code that an extension supplies. *)
Inductive Error : Type :=
  | RemirrorError (code : ErrorConstant) (detail : string)
  | Thrown (payload : string).

Inductive Result (A : Type) : Type :=
  | Throws (e : Error)
  | Returns (a : A).
Arguments Throws {A} e.
Arguments Returns {A} a.

(** Sequencing: a thrown value skips the rest of the block. *)
Definition bind {A B : Type} (r : Result A) (k : A -> Result B) : Result B :=
  match r with
  | Throws e => Throws e
  | Returns a => k a
  end.

Notation "'let*' p ':=' r 'in' k" := (bind r (fun p => k))
  (at level 10, p pattern, r at level 100, k at level 200).

(** JavaScript truthiness of an optional boolean ([undefined | boolean]). *)
Definition truthy (b : option bool) : bool :=
  match b with
  | Some true => true
  | _ => false
  end.

(** ** enhanced-link-utils.ts *)

Module EnhancedLinkUtils.

(** [String.prototype.startsWith(search)] at position 0. *)
Definition startsWith (s search : string) : bool := String.prefix search s.

(** [s] begins with the characters of [search]. *)
Definition BeginsWith (search s : string) : Prop :=
  exists rest, s = String.append search rest.

(** [url.startsWith('http') || url.startsWith('//') ? url : `http://${url}`] *)
Definition extractHref (url : string) : string :=
  if startsWith url "http" || startsWith url "//" then url
  else String.append "http://" url.

Section IsSetEqual.
Context {GSetType : Type} `{EqDecision GSetType}.

(** A JavaScript [Set]: its values in insertion order, each at most once. *)
Definition JSSet : Type := list GSetType.

Definition has (s : JSSet) (value : GSetType) : bool :=
  bool_decide (value ∈ s).

Definition add (s : JSSet) (value : GSetType) : JSSet :=
  if has s value then s else s ++ [value].

(** [new Set(iterable)] *)
Definition newSet (values : list GSetType) : JSSet :=
  foldl add [] values.

Definition size (s : JSSet) : nat := length s.

(** The [for (const value of setOne)] loop with its early [return false]. *)
Fixpoint everyMember (values : list GSetType) (setTwo : JSSet) : bool :=
  match values with
  | [] => true
  | value :: rest =>
      if negb (has setTwo value) then false else everyMember rest setTwo
  end.

Definition isSetEqual (setOne setTwo : JSSet) : bool :=
  if negb (Nat.eqb (size setOne) (size setTwo)) then false
  else everyMember setOne setTwo.

End IsSetEqual.

(** *** [getUrlsFromState] *)

(** A mark as [getUrlsFromState] reads it: [mark.type.name] and [mark.attrs],
    where an attribute that is absent reads as [undefined]. *)
Record Mark : Type :=
  { typeName : string;
    attrs : gmap string string }.

(** A document node as [getUrlsFromState] reads it: [node.marks]. *)
Record PMNode : Type := { marks : list Mark }.

(** [mark.attrs.href]: the url, or [undefined] ([None]). *)
Definition href (mark : Mark) : option string := attrs mark !! "href".

Record UrlsFromState : Type :=
  { set : @JSSet (option string);
    urls : list (option string) }.

(** The callback of [nodesBetween], run on every node handed to it:
    [marks = [...marks, ...node.marks]]. *)
Definition collectMarks (visited : list PMNode) : list Mark :=
  foldl (fun collected node => collected ++ marks node) [] visited.

(** [getUrlsFromState(state, markName)].  The traversal [doc.nodesBetween] of
    the editor library is taken as given: [visited] is the sequence of nodes
    it hands to the callback for the document of [state], in call order. *)
Definition getUrlsFromState (visited : list PMNode) (markName : string)
  : UrlsFromState :=
  let marks := collectMarks visited in
  let urls :=
    map href
      (List.filter (fun markItem => bool_decide (typeName markItem = markName))
         marks) in
  {| set := newSet urls; urls := urls |}.

End EnhancedLinkUtils.

(** *** Sample nodes *)

Module LinkSamples.
Import EnhancedLinkUtils.

Definition link (url : string) : Mark :=
  {| typeName := "enhancedLink"; attrs := {["href" := url]} |}.
Definition bold : Mark := {| typeName := "bold"; attrs := ∅ |}.

Definition paragraphOne : PMNode :=
  {| marks := [link "http://remirror.io"; bold] |}.
Definition paragraphTwo : PMNode := {| marks := [link "//cdn.remirror.io"] |}.

End LinkSamples.

(** ** The React SSR extension *)

Module ReactSSR.

Section Pipeline.
(** [Element] is [JSX.Element]; [Param] is what [getParameter(extension)]
    returns; [World] is whatever state the code supplied by extensions can
    observe and change. *)
Context {Element Param World : Type}.

(** [SSRTransformer = (element: JSX.Element) => JSX.Element]; a call may
    throw. *)
Definition SSRTransformer : Type := Element -> Result Element.

(** [Remirror.ExcludeOptions] *)
Record ExcludeOptions : Type := { reactSSR : option bool }.

Record ExtensionSettings : Type := { exclude : ExcludeOptions }.

(** [createSSRTransformer?: (parameter) => SSRTransformer].  The factory
    runs extension code: it may change the world and may throw. *)
Record ExtensionParameter : Type :=
  { createSSRTransformer :
      option (Param -> World -> Result (SSRTransformer * World)) }.

Record Extension : Type :=
  { name : string;
    parameter : ExtensionParameter;
    settings : ExtensionSettings }.

(** [getParameter] of the manager is not part of the source files at hand;
    the embedding takes it as given. *)
Variable getParameter : Extension -> Param.

(** Values kept in the manager store.  The arrow function [ssrTransformer]
    is stored by reference: it closes over the [ssrTransformers] array of
    the [onInitialize] call that created it. *)
Inductive StoreValue : Type :=
  | EmptyObject
  | SsrTransformerClosure (frame : nat).

(** [frames] is the heap of [ssrTransformers] arrays, one for each call of
    [onInitialize]. *)
Record Manager : Type :=
  { frames : list (list SSRTransformer);
    store : gmap string StoreValue;
    world : World }.

(** Modelled from the spec: [setStoreKey] of the manager, which is not part
    of the source files at hand.  It publishes a value in the shared lookup
    under a fixed name. *)
Definition setStoreKey (key : string) (value : StoreValue) (m : Manager)
  : Manager :=
  {| frames := frames m; store := <[key := value]> (store m);
     world := world m |}.

(** Modelled from the spec: [getStoreKey] of the manager, the read side of
    the shared lookup; a name never set reads as [undefined]. *)
Definition getStoreKey (key : string) (m : Manager) : option StoreValue :=
  store m !! key.

Definition setWorld (w : World) (m : Manager) : Manager :=
  {| frames := frames m; store := store m; world := w |}.

(** [ssrTransformers.push(transformer)] on the array of [frame]. *)
Definition push (frame : nat) (transformer : SSRTransformer) (m : Manager)
  : Manager :=
  {| frames := alter (fun array => array ++ [transformer]) frame (frames m);
     store := store m; world := world m |}.

(** [for (const transformer of ...) { element = transformer(element); }
    return element;] *)
Fixpoint forOf (transformers : list SSRTransformer) (element : Element)
  : Result Element :=
  match transformers with
  | [] => Returns element
  | transformer :: rest =>
      let* element' := transformer element in
      forOf rest element'
  end.

(** The closure [ssrTransformer] run against the current content of its
    array. *)
Definition ssrTransformer (ssrTransformers : list SSRTransformer)
  (initialElement : Element) : Result Element :=
  forOf ssrTransformers initialElement.

(** [onCreate]: its [afterExtensionLoop] handler. *)
Definition onCreate_afterExtensionLoop (m : Manager) : Manager :=
  setStoreKey "componentOptions" EmptyObject
    (setStoreKey "components" EmptyObject m).

Record InitializeHandlers : Type :=
  { forEachExtension : Extension -> Manager -> Result Manager;
    afterExtensionLoop : Manager -> Manager }.

(** [onInitialize]: allocates the [ssrTransformers] array and returns the
    two handlers, both closed over it. *)
Definition onInitialize (m : Manager) : InitializeHandlers * Manager :=
  let frame := length (frames m) in
  ({| forEachExtension := fun extension m =>
        match createSSRTransformer (parameter extension) with
        | None => Returns m
        | Some factory =>
            if truthy (reactSSR (exclude (settings extension)))
            then Returns m
            else
              let* (transformer, w) :=
                factory (getParameter extension) (world m) in
              Returns (push frame transformer (setWorld w m))
        end;
      afterExtensionLoop :=
        setStoreKey "ssrTransformer" (SsrTransformerClosure frame) |},
   {| frames := frames m ++ [[]]; store := store m; world := world m |}).

(** The React SSR extension's own [createSSRTransformer]: the transformer
    that runs [extension.settings.transformers] in order. *)
Definition ReactSSRExtension_createSSRTransformer
  (transformers : list SSRTransformer) : SSRTransformer :=
  fun initialElement => forOf transformers initialElement.

(** A consumer reading the store key and calling what it finds. *)
Definition callStoreKey (key : string) (m : Manager) (element : Element)
  : Result Element :=
  match getStoreKey key m with
  | Some (SsrTransformerClosure frame) =>
      ssrTransformer (frames m !!! frame) element
  | _ => Throws (Thrown "TypeError: not a function")
  end.

(** Modelled from the spec: the manager's loop over the extensions, which
    is not part of the source files at hand.  The handler is called once
    for each extension, in registration order, and a throw ends the loop. *)
Fixpoint extensionLoop (handlers : InitializeHandlers)
  (extensions : list Extension) (m : Manager) : Result Manager :=
  match extensions with
  | [] => Returns m
  | extension :: rest =>
      let* m' := forEachExtension handlers extension m in
      extensionLoop handlers rest m'
  end.

(** Modelled from the spec: one initialization pass, that is [onInitialize],
    the loop over the extensions, then [afterExtensionLoop]. *)
Definition initializationPass (extensions : list Extension) (m : Manager)
  : Result Manager :=
  let '(handlers, m0) := onInitialize m in
  let* m1 := extensionLoop handlers extensions m0 in
  Returns (afterExtensionLoop handlers m1).

(** Whether [forEachExtension] gets past its guard for this extension. *)
Definition contributes (extension : Extension) : bool :=
  match createSSRTransformer (parameter extension) with
  | None => false
  | Some _ => negb (truthy (reactSSR (exclude (settings extension))))
  end.

(** The registry as the specification describes it: the transformers that
    the factories of the contributing extensions return, in registration
    order, each factory run in the world its predecessors left. *)
Inductive registers : list Extension -> World -> list SSRTransformer ->
                      World -> Prop :=
  | registers_nil w : registers [] w [] w
  | registers_skip extension rest w ts w' :
      contributes extension = false ->
      registers rest w ts w' ->
      registers (extension :: rest) w ts w'
  | registers_push extension rest factory w t w1 ts w' :
      contributes extension = true ->
      createSSRTransformer (parameter extension) = Some factory ->
      factory (getParameter extension) w = Returns (t, w1) ->
      registers rest w1 ts w' ->
      registers (extension :: rest) w (t :: ts) w'.

(** [t_n(t_{n-1}(... t_1(x)))] as a left fold over the registry. *)
Definition foldTransformers (ts : list SSRTransformer) (x : Element)
  : Result Element :=
  foldl (fun acc t => bind acc t) (Returns x) ts.

End Pipeline.

End ReactSSR.

(** *** Sample extensions

    Elements are numbers, and the world is a counter of factory calls. *)

Module Samples.
Import ReactSSR.

Definition increment : @SSRTransformer nat := fun n => Returns (S n).
Definition double : @SSRTransformer nat := fun n => Returns (2 * n).
Definition failing : @SSRTransformer nat := fun _ => Throws (Thrown "boom").

(** A factory that counts its calls and returns [t]. *)
Definition counting (t : @SSRTransformer nat)
  : unit -> nat -> Result (@SSRTransformer nat * nat) :=
  fun _ calls => Returns (t, S calls).

(** A factory that throws whenever it is called. *)
Definition throwing : unit -> nat -> Result (@SSRTransformer nat * nat) :=
  fun _ _ => Throws (Thrown "factory called").

Definition extension (name : string)
  (factory : option (unit -> nat -> Result (@SSRTransformer nat * nat)))
  (excluded : option bool) : @Extension nat unit nat :=
  {| name := name;
     parameter := {| createSSRTransformer := factory |};
     settings := {| exclude := {| reactSSR := excluded |} |} |}.

Definition getParameter (e : @Extension nat unit nat) : unit := tt.

Definition manager0 : @Manager nat nat :=
  {| frames := []; store := ∅; world := 0 |}.

Definition first : @Extension nat unit nat :=
  extension "first" (Some (counting increment)) None.
Definition second : @Extension nat unit nat :=
  extension "second" (Some (counting double)) (Some false).
Definition broken : @Extension nat unit nat :=
  extension "broken" (Some (counting failing)) None.
Definition plain : @Extension nat unit nat :=
  extension "plain" None None.
Definition excluded : @Extension nat unit nat :=
  extension "excluded" (Some (counting double)) (Some true).
Definition excludedThrowing : @Extension nat unit nat :=
  extension "excludedThrowing" (Some throwing) (Some true).
Definition throwingFactory : @Extension nat unit nat :=
  extension "throwingFactory" (Some throwing) None.

End Samples.

(** ** The helpers extension *)

Module Helpers.

(** Modelled from the spec: [invariant] of [@remirror/core-helpers], which is
    not part of the source files at hand.  It throws the error with the given
    code when the condition is falsy and does nothing otherwise. *)
Definition invariant (condition : bool) (code : ErrorConstant)
  (message : string) : Result unit :=
  if condition then Returns tt else Throws (RemirrorError code message).

(** Modelled from the spec: [throwIfNameNotUnique] of [../helpers], which is
    not part of the source files at hand.  A name already in the set fails
    with the error of the given code, identifying the colliding name; a new
    name is added to the set. *)
Definition throwIfNameNotUnique (name : string) (set : gset string)
  (code : ErrorConstant) : Result (gset string) :=
  let* _ := invariant (negb (bool_decide (name ∈ set))) code name in
  Returns ({[name]} ∪ set).

Section Aggregation.
Context {AnyFunction : Type}.

(** [ExtensionHelperReturn]: the record that [createHelpers()] returns, as
    the pairs that [entries] enumerates, in that order. *)
Definition ExtensionHelperReturn : Type := list (string * AnyFunction).

Record Extension : Type :=
  { createHelpers : option (unit -> ExtensionHelperReturn) }.

(** The two locals of one [onView] call, which its handlers close over:
    [helpers] (made by [object()]) and [names] (made by [new Set()]). *)
Record ViewFrame : Type :=
  { helpers : gmap string AnyFunction;
    names : gset string }.

#[global] Instance ViewFrame_inhabited : Inhabited ViewFrame :=
  populate {| helpers := ∅; names := ∅ |}.

(** The store keeps the [helpers] record by reference. *)
Inductive StoreValue : Type :=
  | HelpersObject (frame : nat).

(** The arrow function that [beforeExtensionLoop] installs. *)
Inductive MethodParameter : Type :=
  | HelpersGetter.

Record Manager : Type :=
  { frames : list ViewFrame;
    store : gmap string StoreValue;
    managerMethodParameter : gmap string MethodParameter }.

(** Modelled from the spec: [getStoreKey] of the manager, which is not part
    of the source files at hand; a name never set reads as [undefined]. *)
Definition getStoreKey (key : string) (m : Manager) : option StoreValue :=
  store m !! key.

(** Modelled from the spec: [setStoreKey] of the manager, which publishes a
    value in the shared lookup under a fixed name. *)
Definition setStoreKey (key : string) (value : StoreValue) (m : Manager)
  : Manager :=
  {| frames := frames m; store := <[key := value]> (store m);
     managerMethodParameter := managerMethodParameter m |}.

(** Modelled from the spec: [setManagerMethodParameter] of the manager, which
    installs a method that extensions later receive and call. *)
Definition setManagerMethodParameter (key : string)
  (value : MethodParameter) (m : Manager) : Manager :=
  {| frames := frames m; store := store m;
     managerMethodParameter := <[key := value]> (managerMethodParameter m) |}.

Definition setFrame (frame : nat) (f : ViewFrame) (m : Manager) : Manager :=
  {| frames := <[frame := f]> (frames m); store := store m;
     managerMethodParameter := managerMethodParameter m |}.

(** [onCreate]: its [beforeExtensionLoop] handler. *)
Definition beforeExtensionLoop (m : Manager) : Manager :=
  setManagerMethodParameter "helpers" HelpersGetter m.

(** The body of the installed arrow function:
    [const helpers = getStoreKey('helpers'); invariant(helpers, ...);
     return helpers]. *)
Definition helpersGetter (m : Manager) : Result (gmap string AnyFunction) :=
  let stored := getStoreKey "helpers" m in
  let* _ := invariant (bool_decide (is_Some stored))
              HELPERS_CALLED_IN_OUTER_SCOPE "" in
  match stored with
  | Some (HelpersObject frame) => Returns (helpers (frames m !!! frame))
  | None => Throws (Thrown "unreachable")
  end.

(** A caller invoking the method parameter [helpers()]. *)
Definition callHelpers (m : Manager) : Result (gmap string AnyFunction) :=
  match managerMethodParameter m !! "helpers" with
  | Some HelpersGetter => helpersGetter m
  | None => Throws (Thrown "TypeError: not a function")
  end.

(** [for (const [name, helper] of entries(extensionHelpers))] *)
Fixpoint forOfEntries (extensionHelpers : ExtensionHelperReturn)
  (f : ViewFrame) : Result ViewFrame :=
  match extensionHelpers with
  | [] => Returns f
  | (name, helper) :: rest =>
      let* names' :=
        throwIfNameNotUnique name (names f) DUPLICATE_HELPER_NAMES in
      forOfEntries rest
        {| helpers := <[name := helper]> (helpers f); names := names' |}
  end.

Record ViewHandlers : Type :=
  { forEachExtension : Extension -> Manager -> Result Manager;
    afterExtensionLoop : Manager -> Manager }.

(** [onView]: allocates [helpers] and [names] and returns the two handlers
    closed over them. *)
Definition onView (m : Manager) : ViewHandlers * Manager :=
  let frame := length (frames m) in
  ({| forEachExtension := fun extension m =>
        match createHelpers extension with
        | None => Returns m
        | Some create =>
            let extensionHelpers := create tt in
            let* f := forOfEntries extensionHelpers (frames m !!! frame) in
            Returns (setFrame frame f m)
        end;
      afterExtensionLoop := setStoreKey "helpers" (HelpersObject frame) |},
   {| frames := frames m ++ [ {| helpers := ∅; names := ∅ |} ];
      store := store m;
      managerMethodParameter := managerMethodParameter m |}).

(** Modelled from the spec: the manager's loop over the extensions, which
    is not part of the source files at hand.  The handler is called once
    for each extension, in registration order, and a throw ends the loop. *)
Fixpoint extensionLoop (handlers : ViewHandlers)
  (extensions : list Extension) (m : Manager) : Result Manager :=
  match extensions with
  | [] => Returns m
  | extension :: rest =>
      let* m' := forEachExtension handlers extension m in
      extensionLoop handlers rest m'
  end.

(** Modelled from the spec: one view pass, that is [onView], the loop over
    the extensions, then [afterExtensionLoop]. *)
Definition viewPass (extensions : list Extension) (m : Manager)
  : Result Manager :=
  let '(handlers, m0) := onView m in
  let* m1 := extensionLoop handlers extensions m0 in
  Returns (afterExtensionLoop handlers m1).

(** Every helper that the extensions contribute, in the order in which the
    pass meets them. *)
Definition contributions (extensions : list Extension)
  : list (string * AnyFunction) :=
  concat (map (fun extension =>
                 match createHelpers extension with
                 | None => []
                 | Some create => create tt
                 end) extensions).

End Aggregation.

End Helpers.

(** *** Sample extensions

    A helper is stood for by a number. *)

Module HelperSamples.
Import Helpers.

Definition manager0 : @Manager nat :=
  {| frames := []; store := ∅; managerMethodParameter := ∅ |}.

Definition beautiful : @Extension nat :=
  {| createHelpers := Some (fun _ => [("checkBeautyLevel", 100)]) |}.
Definition links : @Extension nat :=
  {| createHelpers := Some (fun _ => [("isLink", 1); ("getHref", 2)]) |}.
Definition clashing : @Extension nat :=
  {| createHelpers := Some (fun _ => [("count", 3); ("isLink", 4)]) |}.
Definition silent : @Extension nat := {| createHelpers := None |}.

End HelperSamples.

(** * Properties *)

(** ** enhanced-link-utils.ts *)

Section LinkUtilsFacts.
Import EnhancedLinkUtils.

Lemma startsWith_true s search :
  startsWith s search = true <-> BeginsWith search s.
Proof.
  unfold startsWith, BeginsWith. revert s.
  induction search as [|c search IH]; intros s.
  - split; [intros _; by exists s | intros _; by destruct s].
  - destruct s as [|d s].
    + split; [intros H; discriminate H | intros [rest H]; discriminate H].
    + change (String.prefix (String c search) (String d s))
        with (if Ascii.ascii_dec c d then String.prefix search s else false).
      destruct (Ascii.ascii_dec c d) as [->|Hne].
      * rewrite IH. split; intros [rest Hrest]; exists rest.
        -- change (String d s = String d (String.append search rest)).
           by rewrite Hrest.
        -- change (String d s = String d (String.append search rest)) in Hrest.
           congruence.
      * split; [done | intros [rest Hrest]].
        change (String d s = String c (String.append search rest)) in Hrest.
        congruence.
Qed.

Lemma startsWith_false s search :
  startsWith s search = false <-> ~ BeginsWith search s.
Proof.
  rewrite <- startsWith_true. destruct (startsWith s search); split; done.
Qed.

Lemma extractHref_keeps url :
  BeginsWith "http" url \/ BeginsWith "//" url -> extractHref url = url.
Proof.
  intros H. unfold extractHref.
  destruct H as [H|H]; apply startsWith_true in H; rewrite H; [done|].
  by rewrite orb_true_r.
Qed.

Lemma extractHref_prepends url :
  ~ BeginsWith "http" url -> ~ BeginsWith "//" url ->
  extractHref url = String.append "http://" url.
Proof.
  intros H1%startsWith_false H2%startsWith_false.
  unfold extractHref. by rewrite H1, H2.
Qed.

(** C8: a url that begins with "http" or with "//" is returned unchanged, any
    other url is returned with "http://" in front; the three sample calls of
    the specification evaluate as stated.  The result is a function of the
    characters of the argument alone. *)
Theorem extractHref_prefix_rule :
  (forall url, BeginsWith "http" url \/ BeginsWith "//" url ->
               extractHref url = url) /\
  (forall url, ~ BeginsWith "http" url -> ~ BeginsWith "//" url ->
               extractHref url = String.append "http://" url) /\
  extractHref "example.com" = "http://example.com" /\
  extractHref "http://example.com" = "http://example.com" /\
  extractHref "//cdn.example.com/x" = "//cdn.example.com/x".
Proof.
  split; [exact extractHref_keeps|].
  split; [exact extractHref_prepends|].
  repeat split; reflexivity.
Qed.

Lemma extractHref_prefix_rule_witness :
  extractHref "//remirror.io" = "//remirror.io" /\
  extractHref "remirror.io" = "http://remirror.io".
Proof.
  destruct extractHref_prefix_rule as (Hkeep & Hprepend & _).
  split.
  - apply Hkeep. right. by exists "remirror.io".
  - apply Hprepend; intros [rest Hrest]; discriminate Hrest.
Defined.

(** C10: the scheme test looks at the four characters "http" only, so every
    string that begins with them comes back unchanged ("httpfoo",
    "httpx.com" and "https://..." included), and whatever the argument, the
    result begins with "http" or with "//". *)
Theorem extractHref_http_textual :
  (forall s, BeginsWith "http" s -> extractHref s = s) /\
  extractHref "httpfoo" = "httpfoo" /\
  extractHref "httpx.com" = "httpx.com" /\
  extractHref "https://remirror.io" = "https://remirror.io" /\
  (forall s, BeginsWith "http" (extractHref s) \/
             BeginsWith "//" (extractHref s)).
Proof.
  split; [intros s H; apply extractHref_keeps; by left|].
  do 3 (split; [reflexivity|]).
  intros s. unfold extractHref.
  destruct (startsWith s "http") eqn:H1; simpl.
  - left. by apply startsWith_true.
  - destruct (startsWith s "//") eqn:H2.
    + right. by apply startsWith_true.
    + left. by exists (String.append "://" s).
Qed.

Lemma extractHref_http_textual_witness :
  extractHref "httpfoo.bar" = "httpfoo.bar".
Proof.
  apply (proj1 extractHref_http_textual). by exists "foo.bar".
Defined.

End LinkUtilsFacts.

Section SetFacts.
Import EnhancedLinkUtils.
Context {GSetType : Type} `{EqDecision GSetType}.
Implicit Types (s setOne setTwo : @JSSet GSetType) (v x : GSetType).
Implicit Types (values : list GSetType).

Lemma has_true s v : has s v = true <-> v ∈ s.
Proof. unfold has. apply bool_decide_eq_true. Qed.

Lemma add_elem_of s v x : x ∈ add s v <-> x ∈ s \/ x = v.
Proof.
  unfold add. destruct (has s v) eqn:Hh.
  - apply has_true in Hh. split; [by left | intros [?| ->]; done].
  - rewrite elem_of_app, list_elem_of_singleton. tauto.
Qed.

Lemma add_NoDup s v : NoDup s -> NoDup (add s v).
Proof.
  intros Hs. unfold add. destruct (has s v) eqn:Hh; [done|].
  apply NoDup_app. split; [done|]. split; [| apply NoDup_singleton].
  intros x Hx ->%list_elem_of_singleton.
  apply has_true in Hx. congruence.
Qed.

Lemma foldl_add_spec values : forall s,
  NoDup s ->
  NoDup (foldl add s values) /\
  (forall x, x ∈ foldl add s values <-> x ∈ s \/ x ∈ values).
Proof.
  induction values as [|v values IH]; intros s Hs; simpl.
  - split; [done|]. intros x. rewrite elem_of_nil. tauto.
  - destruct (IH (add s v) (add_NoDup s v Hs)) as [Hnd Hel].
    split; [done|]. intros x.
    rewrite Hel, add_elem_of, elem_of_cons. tauto.
Qed.

Lemma newSet_NoDup values : NoDup (newSet values).
Proof. apply foldl_add_spec, NoDup_nil_2. Qed.

Lemma newSet_elem_of values x : x ∈ newSet values <-> x ∈ values.
Proof.
  unfold newSet.
  destruct (foldl_add_spec values [] (NoDup_nil_2)) as [_ H].
  rewrite H, elem_of_nil. tauto.
Qed.

Lemma everyMember_true values setTwo :
  everyMember values setTwo = true <-> (forall x, x ∈ values -> x ∈ setTwo).
Proof.
  induction values as [|v values IH]; simpl.
  - split; [intros _ x Hx; by apply elem_of_nil in Hx | done].
  - destruct (has setTwo v) eqn:Hh; simpl.
    + apply has_true in Hh. rewrite IH. split.
      * intros H x [->|Hx]%elem_of_cons; auto.
      * intros H x Hx. apply H. by right.
    + split; [done|]. intros H.
      assert (has setTwo v = true) by (apply has_true, H; by left).
      congruence.
Qed.

Lemma isSetEqual_true setOne setTwo :
  NoDup setOne -> NoDup setTwo ->
  isSetEqual setOne setTwo = true <->
  (forall x, x ∈ setOne <-> x ∈ setTwo).
Proof.
  intros H1 H2. unfold isSetEqual, size.
  destruct (Nat.eqb_spec (length setOne) (length setTwo)) as [Hlen|Hlen]; simpl.
  - rewrite everyMember_true. split.
    + intros Hsub.
      assert (setOne ≡ₚ setTwo) as Hp.
      { apply submseteq_length_Permutation; [|lia].
        by apply NoDup_submseteq. }
      intros x. by rewrite Hp.
    + intros H x. by apply H.
  - split; [done|]. intros H. exfalso. apply Hlen.
    apply Permutation_length. by apply NoDup_Permutation.
Qed.

Lemma isSetEqual_size_mismatch setOne setTwo :
  size setOne <> size setTwo -> isSetEqual setOne setTwo = false.
Proof.
  intros H. unfold isSetEqual.
  by destruct (Nat.eqb_spec (size setOne) (size setTwo)).
Qed.

Lemma isSetEqual_same_size setOne setTwo :
  size setOne = size setTwo ->
  isSetEqual setOne setTwo = true <-> (forall x, x ∈ setOne -> x ∈ setTwo).
Proof.
  intros H. unfold isSetEqual. rewrite H, Nat.eqb_refl. simpl.
  apply everyMember_true.
Qed.

Lemma isSetEqual_newSet (l1 l2 : list GSetType) :
  isSetEqual (newSet l1) (newSet l2) = true <->
  (forall x, x ∈ l1 <-> x ∈ l2).
Proof.
  rewrite isSetEqual_true by apply newSet_NoDup.
  split; intros H x; specialize (H x).
  - by rewrite !newSet_elem_of in H.
  - by rewrite !newSet_elem_of.
Qed.

End SetFacts.

(** C9: on sets (values held at most once), [isSetEqual] answers true exactly
    when both hold the same elements, whatever the insertion order and
    however often a value was added; sets of different size are rejected by
    the size test; the three sample calls evaluate as stated. *)
Theorem isSetEqual_iff_same_elements :
  (forall (T : Type) (eq_dec : EqDecision T)
          (setOne setTwo : @EnhancedLinkUtils.JSSet T),
      NoDup setOne -> NoDup setTwo ->
      (EnhancedLinkUtils.isSetEqual setOne setTwo = true <->
       forall x, x ∈ setOne <-> x ∈ setTwo)) /\
  (forall (T : Type) (eq_dec : EqDecision T) (l1 l2 : list T),
      EnhancedLinkUtils.isSetEqual
        (EnhancedLinkUtils.newSet l1) (EnhancedLinkUtils.newSet l2) = true <->
      forall x, x ∈ l1 <-> x ∈ l2) /\
  (forall (T : Type) (eq_dec : EqDecision T)
          (setOne setTwo : @EnhancedLinkUtils.JSSet T),
      EnhancedLinkUtils.size setOne <> EnhancedLinkUtils.size setTwo ->
      EnhancedLinkUtils.isSetEqual setOne setTwo = false) /\
  (forall (T : Type) (eq_dec : EqDecision T)
          (setOne setTwo : @EnhancedLinkUtils.JSSet T),
      EnhancedLinkUtils.size setOne = EnhancedLinkUtils.size setTwo ->
      (EnhancedLinkUtils.isSetEqual setOne setTwo = true <->
       forall x, x ∈ setOne -> x ∈ setTwo)) /\
  EnhancedLinkUtils.isSetEqual
    (EnhancedLinkUtils.newSet [1; 2; 3]) (EnhancedLinkUtils.newSet [3; 2; 1])
    = true /\
  EnhancedLinkUtils.isSetEqual
    (EnhancedLinkUtils.newSet [1; 2]) (EnhancedLinkUtils.newSet [1; 2; 3])
    = false /\
  EnhancedLinkUtils.isSetEqual
    (EnhancedLinkUtils.newSet (@nil nat)) (EnhancedLinkUtils.newSet [])
    = true.
Proof.
  split; [intros; by apply isSetEqual_true|].
  split; [intros; apply isSetEqual_newSet|].
  split; [intros; by apply isSetEqual_size_mismatch|].
  split; [intros; by apply isSetEqual_same_size|].
  repeat split; reflexivity.
Qed.

Lemma isSetEqual_iff_same_elements_witness :
  EnhancedLinkUtils.isSetEqual [2; 7; 5] [5; 2; 7] = true /\
  EnhancedLinkUtils.isSetEqual [2; 7] [5; 2; 7] = false.
Proof.
  destruct isSetEqual_iff_same_elements as (Hiff & _ & Hsize & _ & _).
  split.
  - apply (Hiff nat _ [2; 7; 5] [5; 2; 7]).
    + by apply (bool_decide_unpack _).
    + by apply (bool_decide_unpack _).
    + intros x. rewrite !elem_of_cons. tauto.
  - apply (Hsize nat _ [2; 7] [5; 2; 7]). simpl. lia.
Defined.

(** ** The React SSR extension *)

Section PipelineFacts.
Import ReactSSR.
Context {Element Param World : Type}.
Variable getParameter : @Extension Element Param World -> Param.

Implicit Types (m : @Manager Element World) (w : World).
Implicit Types (extension : @Extension Element Param World).
Implicit Types (t : @SSRTransformer Element).
Implicit Types (ts us : list (@SSRTransformer Element)).
Implicit Types (x y : Element).

Lemma bind_Returns {A B} (a : A) (k : A -> Result B) : bind (Returns a) k = k a.
Proof. reflexivity. Qed.

Lemma forOf_app ts us x : forOf (ts ++ us) x = bind (forOf ts x) (forOf us).
Proof.
  revert x. induction ts as [|t ts IH]; intros x; simpl; [done|].
  destruct (t x) as [e|y]; simpl; [done | apply IH].
Qed.

Lemma foldl_bind_forOf ts (acc : Result Element) :
  foldl (fun acc t => bind acc t) acc ts = bind acc (forOf ts).
Proof.
  revert acc. induction ts as [|t ts IH]; intros acc; simpl.
  - by destruct acc.
  - rewrite IH. by destruct acc.
Qed.

(** The loop of the source and the left fold of the specification agree. *)
Lemma foldTransformers_forOf ts x : foldTransformers ts x = forOf ts x.
Proof. unfold foldTransformers. by rewrite foldl_bind_forOf. Qed.

Lemma forEachExtension_skip m extension m' :
  contributes extension = false ->
  forEachExtension (onInitialize getParameter m).1 extension m' = Returns m'.
Proof.
  unfold contributes. simpl.
  destruct (createSSRTransformer (parameter extension)); [|done].
  by destruct (truthy (reactSSR (exclude (settings extension)))).
Qed.

Lemma forEachExtension_push m extension m' factory t w1 :
  contributes extension = true ->
  createSSRTransformer (parameter extension) = Some factory ->
  factory (getParameter extension) (world m') = Returns (t, w1) ->
  forEachExtension (onInitialize getParameter m).1 extension m' =
  Returns (push (length (frames m)) t (setWorld w1 m')).
Proof.
  unfold contributes. simpl. intros Hc Hf Hrun. rewrite Hf in Hc |- *.
  destruct (truthy (reactSSR (exclude (settings extension)))); [done|].
  by rewrite Hrun.
Qed.

(** The loop appends the registry to the array of the pass and touches
    nothing else but the world. *)
Lemma extensionLoop_registers m extensions ts : forall m' w',
  registers getParameter extensions (world m') ts w' ->
  extensionLoop (onInitialize getParameter m).1 extensions m' =
  Returns {| frames := alter (fun array => array ++ ts) (length (frames m))
                         (frames m');
             store := store m'; world := w' |}.
Proof.
  intros m' w' Hreg. remember (world m') as w0 eqn:Hw0.
  revert m' Hw0.
  induction Hreg as [w|extension rest w ts w' Hc Hreg IH
                    |extension rest factory w t w1 ts w' Hc Hf Hrun Hreg IH];
    intros m' ->.
  - simpl. f_equal. destruct m' as [fr st wo]; simpl. f_equal.
    symmetry. apply list_alter_id. intros array. apply app_nil_r.
  - cbn [extensionLoop]. rewrite forEachExtension_skip by done.
    rewrite bind_Returns. by apply IH.
  - cbn [extensionLoop].
    rewrite (forEachExtension_push m extension m' factory t w1) by done.
    rewrite bind_Returns, IH by done. simpl.
    rewrite list_alter_alter_eq. do 2 f_equal.
    apply list_alter_ext; [|done]. intros array _. simpl.
    by rewrite <- app_assoc.
Qed.

(** What a pass leaves behind when its factories return: the registry in a
    new array, the closure over that array under the store key, and the world
    as the factories left it. *)
Lemma initializationPass_registers m extensions ts w' :
  registers getParameter extensions (world m) ts w' ->
  initializationPass getParameter extensions m =
  Returns {| frames := frames m ++ [ts];
             store := <["ssrTransformer" :=
                          SsrTransformerClosure (length (frames m))]> (store m);
             world := w' |}.
Proof.
  intros Hreg. unfold initializationPass.
  change (onInitialize getParameter m) with
    ((onInitialize getParameter m).1,
     {| frames := frames m ++ [[]]; store := store m; world := world m |}).
  cbv beta iota.
  rewrite (extensionLoop_registers m extensions ts _ w') by done.
  rewrite bind_Returns. simpl. unfold setStoreKey. simpl. do 2 f_equal.
  replace (length (frames m)) with (length (frames m) + 0) by lia.
  by rewrite alter_app_r.
Qed.

Lemma callStoreKey_published
  (frames0 : list (list (@SSRTransformer Element))) ts
  (store0 : gmap string StoreValue) w x :
  callStoreKey "ssrTransformer"
    {| frames := frames0 ++ [ts];
       store := <["ssrTransformer" :=
                    SsrTransformerClosure (length frames0)]> store0;
       world := w |} x = forOf ts x.
Proof.
  unfold callStoreKey, getStoreKey. simpl. rewrite lookup_insert_eq.
  by rewrite list_lookup_total_middle.
Qed.

Lemma registers_none extensions w :
  Forall (fun extension => contributes extension = false) extensions ->
  registers getParameter extensions w [] w.
Proof.
  induction 1 as [|extension rest Hc _ IH]; [constructor|].
  by apply registers_skip.
Qed.

Lemma bind_Returns_r {A} (r : Result A) : bind r Returns = r.
Proof. by destruct r. Qed.


Lemma extensionLoop_filter m extensions : forall m',
  extensionLoop (onInitialize getParameter m).1 extensions m' =
  extensionLoop (onInitialize getParameter m).1
    (List.filter contributes extensions) m'.
Proof.
  induction extensions as [|extension rest IH]; intros m'; [done|].
  cbn [List.filter]. destruct (contributes extension) eqn:Hc.
  - cbn [extensionLoop].
    destruct (forEachExtension _ extension m') as [e|m'']; simpl; [done|].
    apply IH.
  - cbn [extensionLoop]. rewrite forEachExtension_skip by done.
    rewrite bind_Returns. apply IH.
Qed.

(** C1: when the factories of the contributing extensions return
    [t_1 .. t_n], in that order, the pass succeeds, the array of the pass
    holds exactly [t_1 .. t_n], and the transformer published under the store
    key maps every [x] to the left fold [t_n(...t_1(x))].  For a registry
    [t1; t2] this is [t2(t1(x))], and when the two do not commute there is an
    [x] on which it differs from [t1(t2(x))]. *)
Theorem composed_applies_in_registration_order m extensions ts w' :
  registers getParameter extensions (world m) ts w' ->
  exists m',
    initializationPass getParameter extensions m = Returns m' /\
    frames m' !!! length (frames m) = ts /\
    (forall x, callStoreKey "ssrTransformer" m' x = foldTransformers ts x) /\
    (forall t1 t2, ts = [t1; t2] ->
       (forall x, callStoreKey "ssrTransformer" m' x = bind (t1 x) t2) /\
       ((exists x, bind (t1 x) t2 <> bind (t2 x) t1) ->
        exists x, callStoreKey "ssrTransformer" m' x <> bind (t2 x) t1)).
Proof.
  intros Hreg. eexists. split; [by apply initializationPass_registers|].
  split; [simpl; by rewrite list_lookup_total_middle|].
  split.
  - intros x. by rewrite callStoreKey_published, foldTransformers_forOf.
  - intros t1 t2 ->.
    assert (forall x, callStoreKey "ssrTransformer"
              {| frames := frames m ++ [[t1; t2]];
                 store := <["ssrTransformer" :=
                   SsrTransformerClosure (length (frames m))]> (store m);
                 world := w' |} x = bind (t1 x) t2) as Hcall.
    { intros x. rewrite callStoreKey_published. simpl.
      destruct (t1 x) as [e|y]; simpl; [done|]. apply bind_Returns_r. }
    split; [done|]. intros [x Hx]. exists x. by rewrite Hcall.
Qed.

Lemma registers_filter extensions : forall w ts w',
  registers getParameter (List.filter contributes extensions) w ts w' ->
  registers getParameter extensions w ts w'.
Proof.
  induction extensions as [|extension rest IH]; intros w ts w' Hreg;
    [done|].
  cbn [List.filter] in Hreg. destruct (contributes extension) eqn:Hc.
  - inversion Hreg as [|? ? ? ? ? Hskip|? ? factory ? t w1 ts' ? _ Hf Hrun Hrest];
      subst.
    + congruence.
    + eapply registers_push; [done..|]. by apply IH.
  - apply registers_skip; [done|]. by apply IH.
Qed.

(** C3: an extension whose [exclude.reactSSR] is set, or which has no
    [createSSRTransformer], leaves the whole state as it was: its factory is
    not run (the world is the same, and a factory that would throw does not),
    and nothing is appended.  A pass over all extensions is the pass over the
    contributing ones alone.  When the factories of the contributing
    extensions, run one after the other with the others left out, return
    [t_1 .. t_n], the pass over all extensions returns, its array holds
    exactly [t_1 .. t_n], the world is as those factories left it, and the
    published transformer maps every [x] to [t_n(...t_1(x))]: no placeholder
    and no gap. *)
Theorem excluded_extension_contributes_nothing :
  (forall m extension m',
      truthy (reactSSR (exclude (settings extension))) = true \/
      createSSRTransformer (parameter extension) = None ->
      forEachExtension (onInitialize getParameter m).1 extension m'
      = Returns m') /\
  (forall extensions m,
      initializationPass getParameter extensions m =
      initializationPass getParameter (List.filter contributes extensions) m) /\
  (forall extensions m x,
      bind (initializationPass getParameter extensions m)
        (fun m' => callStoreKey "ssrTransformer" m' x) =
      bind (initializationPass getParameter
              (List.filter contributes extensions) m)
        (fun m' => callStoreKey "ssrTransformer" m' x)) /\
  (forall extensions m ts w',
      registers getParameter (List.filter contributes extensions)
        (world m) ts w' ->
      exists m',
        initializationPass getParameter extensions m = Returns m' /\
        frames m' !!! length (frames m) = ts /\
        world m' = w' /\
        forall x,
          callStoreKey "ssrTransformer" m' x = foldTransformers ts x).
Proof.
  assert (forall extensions m,
      initializationPass getParameter extensions m =
      initializationPass getParameter (List.filter contributes extensions) m)
    as Hpass.
  { intros extensions m. unfold initializationPass.
    change (onInitialize getParameter m) with
      ((onInitialize getParameter m).1,
       {| frames := frames m ++ [[]]; store := store m; world := world m |}).
    cbv beta iota. by rewrite extensionLoop_filter. }
  split; [|split; [done|split]].
  - intros m extension m' H. apply forEachExtension_skip.
    unfold contributes. destruct H as [H|H]; rewrite H; [|done].
    by destruct (createSSRTransformer (parameter extension)).
  - intros extensions m x. by rewrite <- Hpass.
  - intros extensions m ts w' Hreg. apply registers_filter in Hreg.
    eexists. split; [by apply initializationPass_registers|].
    split; [simpl; by rewrite list_lookup_total_middle|].
    split; [done|].
    intros x. by rewrite callStoreKey_published, foldTransformers_forOf.
Qed.

(** C4: when no extension contributes, the pass succeeds with an empty array
    and the published transformer returns every [x] itself; the closure run
    on an empty array is the identity. *)
Theorem empty_registry_is_identity m extensions :
  Forall (fun extension => contributes extension = false) extensions ->
  (forall x, ssrTransformer [] x = Returns x) /\
  exists m',
    initializationPass getParameter extensions m = Returns m' /\
    frames m' !!! length (frames m) = [] /\
    forall x, callStoreKey "ssrTransformer" m' x = Returns x.
Proof.
  intros Hnone. split; [done|].
  eexists. split.
  - apply initializationPass_registers. by apply registers_none.
  - split; [simpl; by rewrite list_lookup_total_middle|].
    intros x. by rewrite callStoreKey_published.
Qed.

(** C7: when the transformers before [t] succeed on [x], giving [y], and
    [t y] throws [e], the composed transformer throws that same [e]: both the
    closure run on the array and the transformer published by the pass. *)
Theorem first_throw_propagates m extensions pre t post w' x y e :
  registers getParameter extensions (world m) (pre ++ t :: post) w' ->
  forOf pre x = Returns y ->
  t y = Throws e ->
  ssrTransformer (pre ++ t :: post) x = Throws e /\
  exists m',
    initializationPass getParameter extensions m = Returns m' /\
    callStoreKey "ssrTransformer" m' x = Throws e.
Proof.
  intros Hreg Hpre Ht.
  assert (forOf (pre ++ t :: post) x = Throws e) as Hrun.
  { rewrite forOf_app, Hpre. simpl. by rewrite Ht. }
  split; [done|]. eexists. split; [by apply initializationPass_registers|].
  by rewrite callStoreKey_published.
Qed.


End PipelineFacts.

Section PipelineSamples.
Import ReactSSR Samples.

Lemma registers_first_plain_second :
  registers getParameter [first; plain; second] 0 [increment; double] 2.
Proof.
  eapply registers_push; [done..|].
  apply registers_skip; [done|].
  eapply registers_push; [done..|]. constructor.
Qed.

Lemma registers_first_broken_second :
  registers getParameter [first; broken; second] 0
    ([increment] ++ failing :: [double]) 3.
Proof. repeat (eapply registers_push; [done..|]). constructor. Qed.

Example pass_then_call :
  bind (initializationPass getParameter [first; plain; second] manager0)
    (fun m' => callStoreKey "ssrTransformer" m' 3)
  = Returns 8.
Proof. reflexivity. Qed.

Example other_order_differs :
  bind (initializationPass getParameter [second; plain; first] manager0)
    (fun m' => callStoreKey "ssrTransformer" m' 3)
  = Returns 7.
Proof. reflexivity. Qed.

(** The counter of factory calls stays at its baseline when every extension
    is excluded or has no factory. *)
Example excluded_factories_not_counted :
  bind (initializationPass getParameter [excluded; excludedThrowing; plain]
          manager0)
    (fun m' => Returns (world m'))
  = Returns 0.
Proof. reflexivity. Qed.

Lemma composed_applies_in_registration_order_witness :
  exists m',
    initializationPass getParameter [first; plain; second] manager0
    = Returns m' /\
    callStoreKey "ssrTransformer" m' 3 = Returns 8 /\
    exists x, callStoreKey "ssrTransformer" m' x <> bind (double x) increment.
Proof.
  destruct (composed_applies_in_registration_order getParameter manager0
              [first; plain; second] [increment; double] 2
              registers_first_plain_second)
    as (m' & Hpass & _ & Hfold & Hpair).
  exists m'. split; [exact Hpass|]. split.
  - rewrite Hfold. reflexivity.
  - apply (Hpair increment double eq_refl). exists 3. discriminate.
Defined.

Lemma registers_first_second :
  registers getParameter
    (List.filter contributes [excluded; first; excludedThrowing; plain; second])
    0 [increment; double] 2.
Proof. repeat (eapply registers_push; [done..|]). constructor. Qed.

Lemma excluded_extension_contributes_nothing_witness :
  forEachExtension (onInitialize getParameter manager0).1 excluded manager0
  = Returns manager0 /\
  forEachExtension (onInitialize getParameter manager0).1 excludedThrowing
    manager0 = Returns manager0 /\
  forEachExtension (onInitialize getParameter manager0).1 plain manager0
  = Returns manager0 /\
  initializationPass getParameter [excluded; first; plain] manager0 =
  initializationPass getParameter [first] manager0 /\
  exists m',
    initializationPass getParameter
      [excluded; first; excludedThrowing; plain; second] manager0
    = Returns m' /\
    frames m' !!! 0 = [increment; double] /\
    world m' = 2 /\
    callStoreKey "ssrTransformer" m' 5 = Returns 12.
Proof.
  destruct (excluded_extension_contributes_nothing getParameter)
    as (Hskip & Hpass & _ & Honly).
  split; [|split; [|split; [|split]]].
  - apply Hskip. by left.
  - apply Hskip. by left.
  - apply Hskip. by right.
  - apply (Hpass [excluded; first; plain] manager0).
  - destruct (Honly [excluded; first; excludedThrowing; plain; second]
                manager0 [increment; double] 2 registers_first_second)
      as (m' & Hrun & Harray & Hworld & Hcall).
    exists m'. split; [exact Hrun|]. split; [exact Harray|].
    split; [exact Hworld|]. rewrite Hcall. reflexivity.
Defined.

Lemma empty_registry_is_identity_witness :
  exists m',
    initializationPass getParameter [excluded; plain] manager0 = Returns m' /\
    forall x, callStoreKey "ssrTransformer" m' x = Returns x.
Proof.
  destruct (empty_registry_is_identity getParameter manager0 [excluded; plain])
    as (_ & m' & Hpass & _ & Hid).
  - by repeat constructor.
  - exists m'. by split.
Defined.

Lemma first_throw_propagates_witness :
  ssrTransformer [increment; failing; double] 1 = Throws (Thrown "boom") /\
  exists m',
    initializationPass getParameter [first; broken; second] manager0
    = Returns m' /\
    callStoreKey "ssrTransformer" m' 1 = Throws (Thrown "boom").
Proof.
  apply (first_throw_propagates getParameter manager0 [first; broken; second]
           [increment] failing [double] 3 1 2 (Thrown "boom")
           registers_first_broken_second eq_refl eq_refl).
Defined.



End PipelineSamples.

(** ** The helpers extension *)

Section AggregationFacts.
Import Helpers.
Context {AnyFunction : Type}.
Implicit Types (m : @Manager AnyFunction) (f : @ViewFrame AnyFunction).
Implicit Types (entries : list (string * AnyFunction)).
Implicit Types (extensions : list (@Extension AnyFunction)).

Lemma forOfEntries_app entries entries' f :
  forOfEntries (entries ++ entries') f =
  bind (forOfEntries entries f) (forOfEntries entries').
Proof.
  revert f. induction entries as [|[name helper] rest IH]; intros f; [done|].
  simpl. destruct (throwIfNameNotUnique _ _ _) as [e|names']; simpl; [done|].
  apply IH.
Qed.

Lemma throwIfNameNotUnique_new name (set : gset string) code :
  name ∉ set ->
  throwIfNameNotUnique name set code = Returns ({[name]} ∪ set).
Proof.
  intros H. unfold throwIfNameNotUnique, invariant.
  by rewrite bool_decide_eq_false_2.
Qed.

Lemma throwIfNameNotUnique_taken name (set : gset string) code :
  name ∈ set ->
  throwIfNameNotUnique name set code = Throws (RemirrorError code name).
Proof.
  intros H. unfold throwIfNameNotUnique, invariant.
  by rewrite bool_decide_eq_true_2.
Qed.

(** Distinct names, none of them seen before: the loop succeeds and stores
    each helper under its name. *)
Lemma forOfEntries_distinct entries : forall f,
  NoDup entries.*1 ->
  (forall name, name ∈ entries.*1 -> name ∉ names f) ->
  exists f',
    forOfEntries entries f = Returns f' /\
    (forall name helper,
        (name, helper) ∈ entries -> helpers f' !! name = Some helper) /\
    (forall name,
        name ∉ entries.*1 -> helpers f' !! name = helpers f !! name).
Proof.
  induction entries as [|[name helper] rest IH]; intros f Hnd Hfresh.
  - exists f. split; [done|]. split; [|done].
    intros name helper Hin. by apply elem_of_nil in Hin.
  - simpl in *. apply NoDup_cons in Hnd as [Hname Hnd].
    rewrite throwIfNameNotUnique_new by (apply Hfresh; by left).
    rewrite bind_Returns.
    destruct (IH {| helpers := <[name := helper]> (helpers f);
                    names := {[name]} ∪ names f |} Hnd)
      as (f' & Hrun & Hall & Hother).
    { intros name' Hin. simpl.
      assert (name' ∉ names f) by (apply Hfresh; by right).
      assert (name' <> name) by (intros ->; done).
      intros [?%elem_of_singleton|?]%elem_of_union; done. }
    exists f'. split; [done|]. split.
    + intros name' helper' [Heq|Hin]%elem_of_cons.
      * injection Heq as -> ->. rewrite Hother by done. simpl.
        apply lookup_insert_eq.
      * by apply Hall.
    + intros name' Hnot. apply not_elem_of_cons in Hnot as [Hne Hnot].
      rewrite Hother by done. simpl. by apply lookup_insert_ne.
Qed.

(** A name met twice, or seen before: the loop throws, and the error carries
    such a name. *)
Lemma forOfEntries_collision entries : forall f,
  ~ (NoDup entries.*1 /\
     forall name, name ∈ entries.*1 -> name ∉ names f) ->
  exists name,
    forOfEntries entries f
    = Throws (RemirrorError DUPLICATE_HELPER_NAMES name) /\
    ((name ∈ names f /\ name ∈ entries.*1) \/
     exists l1 l2 l3, entries.*1 = l1 ++ name :: l2 ++ name :: l3).
Proof.
  induction entries as [|[name helper] rest IH]; intros f Hbad.
  - exfalso. apply Hbad. split; [constructor|].
    intros name Hin. by apply elem_of_nil in Hin.
  - simpl in *. destruct (decide (name ∈ names f)) as [Hseen|Hnew].
    + exists name. rewrite throwIfNameNotUnique_taken by done.
      split; [done|]. left. split; [done | by left].
    + rewrite throwIfNameNotUnique_new by done. rewrite bind_Returns.
      destruct (IH {| helpers := <[name := helper]> (helpers f);
                      names := {[name]} ∪ names f |})
        as (name' & Hrun & Hwhere).
      { simpl. intros [Hnd Hfresh]. apply Hbad. split.
        - apply NoDup_cons. split; [|done].
          intros Hin. apply (Hfresh name Hin).
          apply elem_of_union. left. by apply elem_of_singleton.
        - intros name' [->|Hin]%elem_of_cons; [done|].
          intros Hseen. apply (Hfresh name' Hin).
          apply elem_of_union. by right. }
      exists name'. split; [done|]. simpl in Hwhere.
      destruct Hwhere as [[Hin Hrest]|(l1 & l2 & l3 & Heq)].
      * apply elem_of_union in Hin as [->%elem_of_singleton|Hin].
        -- right. apply list_elem_of_split in Hrest as (l2 & l3 & Heq).
           exists [], l2, l3. simpl. f_equal. exact Heq.
        -- left. split; [done | by right].
      * right. exists (name :: l1), l2, l3. simpl. f_equal. exact Heq.
Qed.

(** The loop over the extensions is the loop over all their entries, run on
    the frame of the pass. *)
Lemma extensionLoop_entries m extensions : forall m',
  length (frames m) < length (frames m') ->
  extensionLoop (onView m).1 extensions m' =
  bind (forOfEntries (contributions extensions)
          (frames m' !!! length (frames m)))
       (fun f => Returns (setFrame (length (frames m)) f m')).
Proof.
  induction extensions as [|extension rest IH]; intros m' Hlt.
  - simpl. f_equal. destruct m' as [fr st mp]. unfold setFrame. simpl in *.
    f_equal. symmetry. apply list_insert_id.
    by apply list_lookup_lookup_total_lt.
  - cbn [extensionLoop]. unfold contributions. cbn [map concat].
    fold (contributions rest). simpl.
    destruct (createHelpers extension) as [create|]; simpl; [|by apply IH].
    rewrite forOfEntries_app.
    destruct (forOfEntries (create tt) _) as [e|f]; simpl; [done|].
    rewrite IH by (simpl; by rewrite length_insert).
    simpl. rewrite list_lookup_total_insert_eq by done.
    destruct (forOfEntries (contributions rest) f) as [e|f']; simpl; [done|].
    unfold setFrame. simpl. by rewrite list_insert_insert_eq.
Qed.

Lemma viewPass_entries m extensions :
  viewPass extensions m =
  bind (forOfEntries (contributions extensions)
          {| helpers := ∅; names := ∅ |})
       (fun f => Returns
          {| frames := frames m ++ [f];
             store := <["helpers" := HelpersObject (length (frames m))]>
                        (store m);
             managerMethodParameter := managerMethodParameter m |}).
Proof.
  unfold viewPass.
  change (onView m) with
    ((onView m).1,
     {| frames := frames m ++ [ {| helpers := ∅; names := ∅ |} ];
        store := store m;
        managerMethodParameter := managerMethodParameter m |}).
  cbv beta iota. rewrite extensionLoop_entries
    by (simpl; rewrite length_app; simpl; lia).
  simpl. rewrite list_lookup_total_middle by done.
  destruct (forOfEntries _ _) as [e|f]; simpl; [done|].
  unfold setStoreKey, setFrame. simpl. do 2 f_equal.
  replace (length (frames m)) with (length (frames m) + 0) by lia.
  by rewrite insert_app_r.
Qed.

Lemma callHelpers_installed m :
  callHelpers (beforeExtensionLoop m) = helpersGetter m.
Proof.
  unfold callHelpers, beforeExtensionLoop, setManagerMethodParameter. simpl.
  by rewrite lookup_insert_eq.
Qed.

Lemma helpersGetter_unset m :
  getStoreKey "helpers" m = None ->
  helpersGetter m = Throws (RemirrorError HELPERS_CALLED_IN_OUTER_SCOPE "").
Proof. intros H. unfold helpersGetter. by rewrite H. Qed.

Lemma helpersGetter_set m frame :
  getStoreKey "helpers" m = Some (HelpersObject frame) ->
  helpersGetter m = Returns (helpers (frames m !!! frame)).
Proof. intros H. unfold helpersGetter. by rewrite H. Qed.

(** C5: when the names contributed by the extensions are pairwise distinct,
    the pass succeeds, stores the record under the key, and the record holds
    every contributed helper under its name; when some name is contributed
    twice, the pass fails with the duplicate-names error, and the error names
    a name that occurs twice among the contributions. *)
Theorem helper_names_must_be_unique m extensions :
  (NoDup (contributions extensions).*1 ->
   exists m',
     viewPass extensions m = Returns m' /\
     getStoreKey "helpers" m' = Some (HelpersObject (length (frames m))) /\
     forall name helper,
       (name, helper) ∈ contributions extensions ->
       helpers (frames m' !!! length (frames m)) !! name = Some helper) /\
  (~ NoDup (contributions extensions).*1 ->
   exists name l1 l2 l3,
     viewPass extensions m
     = Throws (RemirrorError DUPLICATE_HELPER_NAMES name) /\
     (contributions extensions).*1 = l1 ++ name :: l2 ++ name :: l3).
Proof.
  split.
  - intros Hnd.
    destruct (forOfEntries_distinct (contributions extensions)
                {| helpers := ∅; names := ∅ |} Hnd)
      as (f' & Hrun & Hall & _).
    { intros name _. apply not_elem_of_empty. }
    eexists. rewrite viewPass_entries, Hrun. split; [reflexivity|].
    split.
    + unfold getStoreKey. simpl. apply lookup_insert_eq.
    + simpl. by rewrite list_lookup_total_middle.
  - intros Hdup.
    destruct (forOfEntries_collision (contributions extensions)
                {| helpers := ∅; names := ∅ |})
      as (name & Hrun & [[Hin _]|(l1 & l2 & l3 & Heq)]).
    { intros [Hnd _]. by apply Hdup. }
    + by apply not_elem_of_empty in Hin.
    + exists name, l1, l2, l3. by rewrite viewPass_entries, Hrun.
Qed.

(** C6: while the store holds nothing under the key, the getter installed by
    [beforeExtensionLoop] throws the called-in-outer-scope error, also in the
    middle of a view pass, when helpers have been collected but not yet
    stored; once the key is set, it returns the record stored there. *)
Theorem helpers_getter_needs_store_key :
  (forall m,
      getStoreKey "helpers" m = None ->
      callHelpers (beforeExtensionLoop m)
      = Throws (RemirrorError HELPERS_CALLED_IN_OUTER_SCOPE "")) /\
  (forall m extensions m1,
      getStoreKey "helpers" m = None ->
      extensionLoop (onView (beforeExtensionLoop m)).1 extensions
        (onView (beforeExtensionLoop m)).2 = Returns m1 ->
      callHelpers m1
      = Throws (RemirrorError HELPERS_CALLED_IN_OUTER_SCOPE "") /\
      callHelpers (afterExtensionLoop (onView (beforeExtensionLoop m)).1 m1)
      = Returns (helpers (frames m1 !!! length (frames m)))) /\
  (forall m frame,
      callHelpers
        (setStoreKey "helpers" (HelpersObject frame) (beforeExtensionLoop m))
      = Returns (helpers (frames m !!! frame))).
Proof.
  split; [|split].
  - intros m H. rewrite callHelpers_installed. by apply helpersGetter_unset.
  - intros m extensions m1 Hunset Hloop.
    rewrite extensionLoop_entries in Hloop
      by (simpl; rewrite length_app; simpl; lia).
    destruct (forOfEntries _ _) as [e|f]; simpl in Hloop; [done|].
    injection Hloop as <-. split.
    + unfold callHelpers, setFrame. simpl. rewrite lookup_insert_eq.
      by apply helpersGetter_unset.
    + unfold callHelpers, setFrame. simpl. rewrite lookup_insert_eq.
      apply helpersGetter_set. unfold getStoreKey. simpl.
      apply lookup_insert_eq.
  - intros m frame. unfold callHelpers. simpl. rewrite lookup_insert_eq.
    rewrite (helpersGetter_set _ frame); [done|].
    unfold getStoreKey. simpl. apply lookup_insert_eq.
Qed.

End AggregationFacts.

Section AggregationSamples.
Import Helpers HelperSamples.

Example viewPass_reports_isLink :
  viewPass [beautiful; links; clashing] manager0
  = Throws (RemirrorError DUPLICATE_HELPER_NAMES "isLink").
Proof. reflexivity. Qed.

Example viewPass_then_getter :
  bind (viewPass [beautiful; silent; links] (beforeExtensionLoop manager0))
    callHelpers
  = Returns (<["getHref" := 2]> (<["isLink" := 1]>
               (<["checkBeautyLevel" := 100]> ∅))).
Proof. reflexivity. Qed.

Lemma helper_names_must_be_unique_witness :
  (exists m',
      viewPass [beautiful; silent; links] manager0 = Returns m' /\
      helpers (frames m' !!! 0) !! "getHref" = Some 2) /\
  (exists name,
      viewPass [beautiful; links; clashing] manager0
      = Throws (RemirrorError DUPLICATE_HELPER_NAMES name) /\
      name ∈ (contributions [beautiful; links; clashing]).*1).
Proof.
  split.
  - destruct (helper_names_must_be_unique manager0 [beautiful; silent; links])
      as [Hok _].
    destruct Hok as (m' & Hpass & _ & Hall).
    + by apply (bool_decide_unpack _).
    + exists m'. split; [exact Hpass|]. apply Hall.
      by apply (bool_decide_unpack _).
  - destruct (helper_names_must_be_unique manager0
                [beautiful; links; clashing]) as [_ Hfail].
    destruct Hfail as (name & l1 & l2 & l3 & Hpass & Heq).
    + by apply (bool_decide_unpack
                  (~ NoDup (contributions [beautiful; links; clashing]).*1)).
    + exists name. split; [exact Hpass|]. rewrite Heq.
      apply elem_of_app. right. by left.
Defined.

Lemma helpers_getter_needs_store_key_witness :
  callHelpers (beforeExtensionLoop manager0)
  = Throws (RemirrorError HELPERS_CALLED_IN_OUTER_SCOPE "").
Proof.
  apply (proj1 helpers_getter_needs_store_key manager0). reflexivity.
Defined.

End AggregationSamples.

(** * Further properties *)

(** ** enhanced-link-utils.ts *)

Section LinkUtilsMore.
Import EnhancedLinkUtils.

Lemma extractHref_begins s :
  BeginsWith "http" (extractHref s) \/ BeginsWith "//" (extractHref s).
Proof.
  unfold extractHref.
  destruct (startsWith s "http") eqn:H1; simpl.
  - left. by apply startsWith_true.
  - destruct (startsWith s "//") eqn:H2.
    + right. by apply startsWith_true.
    + left. by exists (String.append "://" s).
Qed.

(** X1: normalizing twice is normalizing once. *)
Theorem extractHref_idempotent s :
  extractHref (extractHref s) = extractHref s.
Proof. apply extractHref_keeps, extractHref_begins. Qed.

Lemma string_length_append (p s : string) :
  String.length (String.append p s) = String.length p + String.length s.
Proof.
  induction p as [|c p IH]; [reflexivity|].
  change (S (String.length (String.append p s))
          = S (String.length p + String.length s)).
  by rewrite IH.
Qed.

Lemma append_length_neq (p s : string) :
  p <> "" -> String.append p s <> s.
Proof.
  intros Hp Heq. apply (f_equal String.length) in Heq.
  rewrite string_length_append in Heq. destruct p as [|c p]; [done|].
  change (String.length (String c p)) with (S (String.length p)) in Heq.
  lia.
Qed.

(** X2: the urls that [extractHref] leaves alone are exactly those that begin
    with "http" or with "//"; every other url comes back changed. *)
Theorem extractHref_fixed_points s :
  extractHref s = s <-> BeginsWith "http" s \/ BeginsWith "//" s.
Proof.
  split; [|apply extractHref_keeps].
  intros Hfix. unfold extractHref in Hfix.
  destruct (startsWith s "http") eqn:H1; simpl in Hfix.
  { left. by apply startsWith_true. }
  destruct (startsWith s "//") eqn:H2.
  { right. by apply startsWith_true. }
  by apply append_length_neq in Hfix.
Qed.

(** X3: the test is case sensitive and knows no other scheme: a url that is
    empty, or whose first character is neither 'h' nor '/', gets "http://"
    in front, so "HTTP://a", "ftp://a" and "mailto:a" all do. *)
Theorem extractHref_other_first_character s :
  (s = "" \/ exists c rest, s = String c rest /\ c <> "h"%char /\ c <> "/"%char) ->
  extractHref s = String.append "http://" s.
Proof.
  intros [->|(c & rest & -> & Hh & Hs)]; [reflexivity|].
  apply extractHref_prepends; intros [tail Htail];
    injection Htail as Hc _; congruence.
Qed.

Lemma extractHref_fixed_points_witness :
  BeginsWith "http" "https://remirror.io" \/
  BeginsWith "//" "https://remirror.io".
Proof.
  apply (extractHref_fixed_points "https://remirror.io"). reflexivity.
Defined.

Lemma extractHref_other_first_character_witness :
  extractHref "HTTP://remirror.io" = "http://HTTP://remirror.io" /\
  extractHref "ftp://remirror.io" = "http://ftp://remirror.io" /\
  extractHref "" = "http://".
Proof.
  split; [|split].
  - apply extractHref_other_first_character. right.
    exists "H"%char, "TTP://remirror.io". by repeat split.
  - apply extractHref_other_first_character. right.
    exists "f"%char, "tp://remirror.io". by repeat split.
  - apply extractHref_other_first_character. by left.
Defined.

End LinkUtilsMore.

Section SetMore.
Import EnhancedLinkUtils.
Context {GSetType : Type} `{EqDecision GSetType}.
Implicit Types (setOne setTwo setThree : @JSSet GSetType).
Implicit Types (values : list GSetType).

(** X4: although the loop tests membership in one direction only, on sets
    [isSetEqual] is symmetric; it is also reflexive and transitive. *)
Theorem isSetEqual_equivalence :
  (forall setOne, isSetEqual setOne setOne = true) /\
  (forall setOne setTwo,
      NoDup setOne -> NoDup setTwo ->
      isSetEqual setOne setTwo = isSetEqual setTwo setOne) /\
  (forall setOne setTwo setThree,
      NoDup setOne -> NoDup setTwo -> NoDup setThree ->
      isSetEqual setOne setTwo = true ->
      isSetEqual setTwo setThree = true ->
      isSetEqual setOne setThree = true).
Proof.
  split; [|split].
  - intros setOne. by apply isSetEqual_same_size.
  - intros setOne setTwo H1 H2.
    destruct (isSetEqual setTwo setOne) eqn:Hrev.
    + pose proof (proj1 (isSetEqual_true _ _ H2 H1) Hrev) as Hsame.
      apply (isSetEqual_true _ _ H1 H2). intros x. by rewrite Hsame.
    + destruct (isSetEqual setOne setTwo) eqn:Hfwd; [|done].
      pose proof (proj1 (isSetEqual_true _ _ H1 H2) Hfwd) as Hsame.
      assert (isSetEqual setTwo setOne = true) as Hyes.
      { apply (isSetEqual_true _ _ H2 H1). intros x. by rewrite Hsame. }
      congruence.
  - intros setOne setTwo setThree H1 H2 H3 H12 H23.
    pose proof (proj1 (isSetEqual_true _ _ H1 H2) H12) as Hsame12.
    pose proof (proj1 (isSetEqual_true _ _ H2 H3) H23) as Hsame23.
    apply (isSetEqual_true _ _ H1 H3). intros x.
    by rewrite Hsame12, Hsame23.
Qed.

Lemma foldl_add_length values : forall (s : @JSSet GSetType),
  length (foldl add s values) <= length s + length values.
Proof.
  induction values as [|v values IH]; intros s; simpl; [lia|].
  etrans; [apply IH|]. unfold add. destruct (has s v); [lia|].
  rewrite length_app. simpl. lia.
Qed.

Lemma newSet_size values : size (newSet values) <= length values.
Proof. unfold size, newSet. apply (foldl_add_length values []). Qed.

End SetMore.

Lemma isSetEqual_equivalence_witness :
  EnhancedLinkUtils.isSetEqual [4; 9] [9; 4]
  = EnhancedLinkUtils.isSetEqual [9; 4] [4; 9] /\
  EnhancedLinkUtils.isSetEqual [4; 9] [4; 9] = true.
Proof.
  destruct (@isSetEqual_equivalence nat _) as (Hrefl & Hsym & Htrans).
  split.
  - apply Hsym; by apply (bool_decide_unpack _).
  - apply (Htrans [4; 9] [9; 4] [4; 9]);
      try (by apply (bool_decide_unpack _)); reflexivity.
Defined.

Section UrlsFromStateFacts.
Import EnhancedLinkUtils.
Implicit Types (visited : list PMNode) (markName : string).
Implicit Types (u : option string).

Lemma foldl_collect visited : forall (collected : list Mark),
  foldl (fun collected node => collected ++ marks node) collected visited
  = collected ++ concat (map marks visited).
Proof.
  induction visited as [|node visited IH]; intros collected; simpl.
  - by rewrite app_nil_r.
  - by rewrite IH, app_assoc.
Qed.

Lemma collectMarks_concat visited :
  collectMarks visited = concat (map marks visited).
Proof. unfold collectMarks. by rewrite foldl_collect. Qed.

Lemma collectMarks_app visited visited' :
  collectMarks (visited ++ visited')
  = collectMarks visited ++ collectMarks visited'.
Proof. by rewrite !collectMarks_concat, map_app, concat_app. Qed.

Lemma newSet_of_distinct {A} `{EqDecision A} (values : list A) :
  forall s : @JSSet A, NoDup (s ++ values) -> foldl add s values = s ++ values.
Proof.
  induction values as [|v values IH]; intros s Hnd; simpl.
  - by rewrite app_nil_r.
  - assert (has s v = false) as Hv.
    { apply not_true_iff_false. rewrite has_true.
      apply NoDup_app in Hnd as (_ & Hdisj & _). intros Hin.
      apply (Hdisj v Hin). by left. }
    unfold add at 2. rewrite Hv.
    rewrite IH; rewrite <- app_assoc; done.
Qed.

(** X5: the [set] of the result holds exactly the entries of [urls], each
    once, so it is never larger than [urls]; when [urls] has no repetition
    the set lists the same values in the same order. *)
Theorem getUrlsFromState_set_of_urls visited markName :
  NoDup (set (getUrlsFromState visited markName)) /\
  (forall u, u ∈ set (getUrlsFromState visited markName) <->
             u ∈ urls (getUrlsFromState visited markName)) /\
  size (set (getUrlsFromState visited markName))
  <= length (urls (getUrlsFromState visited markName)) /\
  (NoDup (urls (getUrlsFromState visited markName)) ->
   set (getUrlsFromState visited markName)
   = urls (getUrlsFromState visited markName)).
Proof.
  simpl. split; [apply newSet_NoDup|].
  split; [intros u; apply newSet_elem_of|].
  split; [apply newSet_size|].
  intros Hnd. apply (newSet_of_distinct _ []). by simpl.
Qed.

(** X6: a value is among the [urls] exactly when some visited node carries a
    mark of the requested name whose [href] attribute is that value; marks of
    any other name never contribute. *)
Theorem getUrlsFromState_urls_membership visited markName u :
  u ∈ urls (getUrlsFromState visited markName) <->
  exists node mark,
    node ∈ visited /\ mark ∈ marks node /\
    typeName mark = markName /\ href mark = u.
Proof.
  simpl. rewrite collectMarks_concat, list_elem_of_In, in_map_iff. split.
  - intros (mark & Hhref & Hin). apply filter_In in Hin as [Hin Hname].
    apply bool_decide_eq_true in Hname.
    apply in_concat in Hin as (l & Hl & Hmark).
    apply in_map_iff in Hl as (node & <- & Hnode).
    exists node, mark. by rewrite !list_elem_of_In.
  - intros (node & mark & Hnode & Hmark & Hname & Hhref).
    exists mark. split; [done|]. apply filter_In. split.
    + apply in_concat. exists (marks node).
      split; [|by apply list_elem_of_In]. apply in_map_iff.
      exists node. split; [done|]. by apply list_elem_of_In.
    + by apply bool_decide_eq_true.
Qed.

Lemma urls_app visited visited' markName :
  urls (getUrlsFromState (visited ++ visited') markName)
  = urls (getUrlsFromState visited markName)
    ++ urls (getUrlsFromState visited' markName).
Proof. simpl. by rewrite collectMarks_app, List.filter_app, map_app. Qed.

(** X7: [urls] follows the order in which the nodes are visited: the urls of
    two stretches of nodes visited one after the other are the urls of the
    first followed by the urls of the second, and no node means no url. *)
Theorem getUrlsFromState_urls_in_visit_order visited visited' markName :
  urls (getUrlsFromState (visited ++ visited') markName)
  = urls (getUrlsFromState visited markName)
    ++ urls (getUrlsFromState visited' markName) /\
  urls (getUrlsFromState [] markName) = [].
Proof. split; [apply urls_app | reflexivity]. Qed.

Lemma getUrlsFromState_urls_perm visited visited' markName :
  visited ≡ₚ visited' ->
  urls (getUrlsFromState visited markName)
  ≡ₚ urls (getUrlsFromState visited' markName).
Proof.
  intros Hperm. simpl. rewrite !collectMarks_concat.
  apply Permutation_map.
  assert (concat (map marks visited) ≡ₚ concat (map marks visited')) as Hc.
  { by rewrite Hperm. }
  revert Hc. generalize (concat (map marks visited))
    (concat (map marks visited')). intros l l' Hl.
  induction Hl as [|x l l' Hl IH|x y l|l l' l'' _ IH1 _ IH2]; simpl.
  - done.
  - destruct (bool_decide _); [by constructor|done].
  - destruct (bool_decide (typeName x = markName)),
      (bool_decide (typeName y = markName)); try done. apply perm_swap.
  - by etrans.
Qed.

(** X8: comparing the [set]s of two results with [isSetEqual] answers true
    exactly when the two [urls] lists hold the same values; in particular the
    answer is true when one document visits the nodes of the other in another
    order, and repeated links make no difference. *)
Theorem isSetEqual_getUrlsFromState visited visited' markName :
  (isSetEqual (set (getUrlsFromState visited markName))
              (set (getUrlsFromState visited' markName)) = true <->
   forall u, u ∈ urls (getUrlsFromState visited markName) <->
             u ∈ urls (getUrlsFromState visited' markName)) /\
  (visited ≡ₚ visited' ->
   isSetEqual (set (getUrlsFromState visited markName))
              (set (getUrlsFromState visited' markName)) = true) /\
  isSetEqual (set (getUrlsFromState (visited ++ visited) markName))
             (set (getUrlsFromState visited markName)) = true.
Proof.
  assert (forall v v',
    isSetEqual (set (getUrlsFromState v markName))
               (set (getUrlsFromState v' markName)) = true <->
    forall u, u ∈ urls (getUrlsFromState v markName) <->
              u ∈ urls (getUrlsFromState v' markName)) as Hiff.
  { intros v v'. cbn [set urls getUrlsFromState]. apply isSetEqual_newSet. }
  split; [apply Hiff|]. split.
  - intros Hperm. apply Hiff. intros u.
    by rewrite (getUrlsFromState_urls_perm visited visited' markName Hperm).
  - apply Hiff. intros u. rewrite urls_app, elem_of_app.
    tauto.
Qed.

End UrlsFromStateFacts.

Section UrlsFromStateSamples.
Import EnhancedLinkUtils LinkSamples.

Example getUrlsFromState_sample :
  urls (getUrlsFromState [paragraphOne; paragraphTwo; paragraphOne]
          "enhancedLink")
  = [Some "http://remirror.io"; Some "//cdn.remirror.io";
     Some "http://remirror.io"] /\
  set (getUrlsFromState [paragraphOne; paragraphTwo; paragraphOne]
         "enhancedLink")
  = [Some "http://remirror.io"; Some "//cdn.remirror.io"].
Proof. split; reflexivity. Qed.

Lemma getUrlsFromState_urls_membership_witness :
  Some "//cdn.remirror.io"
  ∈ urls (getUrlsFromState [paragraphOne; paragraphTwo] "enhancedLink").
Proof.
  apply (getUrlsFromState_urls_membership [paragraphOne; paragraphTwo]
           "enhancedLink" (Some "//cdn.remirror.io")).
  exists paragraphTwo, (link "//cdn.remirror.io").
  split; [right; by left|].
  split; [by left|]. split; reflexivity.
Defined.

Lemma getUrlsFromState_set_of_urls_witness :
  set (getUrlsFromState [paragraphOne; paragraphTwo] "enhancedLink")
  = urls (getUrlsFromState [paragraphOne; paragraphTwo] "enhancedLink").
Proof.
  destruct (getUrlsFromState_set_of_urls [paragraphOne; paragraphTwo]
              "enhancedLink") as (_ & _ & _ & Hsame).
  apply Hsame. by apply (bool_decide_unpack _).
Defined.

Lemma isSetEqual_getUrlsFromState_witness :
  isSetEqual
    (set (getUrlsFromState [paragraphOne; paragraphTwo] "enhancedLink"))
    (set (getUrlsFromState [paragraphTwo; paragraphOne] "enhancedLink"))
  = true.
Proof.
  destruct (isSetEqual_getUrlsFromState [paragraphOne; paragraphTwo]
              [paragraphTwo; paragraphOne] "enhancedLink")
    as (_ & Hperm & _).
  apply Hperm. apply perm_swap.
Defined.

End UrlsFromStateSamples.

(** ** The React SSR extension *)

Section PipelineMore.
Import ReactSSR.
Context {Element Param World : Type}.
Variable getParameter : @Extension Element Param World -> Param.

Implicit Types (m : @Manager Element World) (w : World).
Implicit Types (extension : @Extension Element Param World).
Implicit Types (extensions : list (@Extension Element Param World)).
Implicit Types (t : @SSRTransformer Element).
Implicit Types (ts us pre post : list (@SSRTransformer Element)).
Implicit Types (x y : Element).

(** X9: when every transformer returns normally, so does the composed one,
    and its result is the plain composition of the functions behind them,
    first registered first applied. *)
Theorem ssrTransformer_of_total_functions (fs : list (Element -> Element)) x :
  ssrTransformer (map (fun f element => Returns (f element)) fs) x
  = Returns (foldl (fun element f => f element) x fs).
Proof.
  unfold ssrTransformer. revert x.
  induction fs as [|f fs IH]; intros x; simpl; [done|]. apply IH.
Qed.

(** X10: the transformer that the React SSR extension itself contributes
    runs its [settings.transformers] in order, so registering it anywhere in
    the pipeline is the same as registering those transformers there one by
    one; with no settings transformer it changes nothing. *)
Theorem own_transformer_flattens pre post (transformers : list _) x :
  ssrTransformer
    (pre ++ ReactSSRExtension_createSSRTransformer transformers :: post) x
  = ssrTransformer (pre ++ transformers ++ post) x.
Proof.
  unfold ssrTransformer. rewrite !forOf_app.
  destruct (forOf pre x) as [e|y]; simpl; [done|].
  unfold ReactSSRExtension_createSSRTransformer.
  by rewrite forOf_app.
Qed.

(** X11: running a pipeline is running a first stretch of it and then the
    rest on the outcome; once the first stretch throws, the rest has no say.
    *)
Theorem ssrTransformer_splits ts us x :
  ssrTransformer (ts ++ us) x = bind (ssrTransformer ts x) (ssrTransformer us)
  /\ (forall e, ssrTransformer ts x = Throws e ->
                ssrTransformer (ts ++ us) x = Throws e).
Proof.
  unfold ssrTransformer. split; [apply forOf_app|].
  intros e He. by rewrite forOf_app, He.
Qed.

Lemma registers_length extensions w ts w' :
  registers getParameter extensions w ts w' ->
  length ts = length (List.filter contributes extensions).
Proof.
  induction 1 as [w|extension rest w ts w' Hc _ IH
                 |extension rest factory w t w1 ts w' Hc _ _ _ IH];
    simpl; [done|by rewrite Hc|rewrite Hc; simpl; by rewrite IH].
Qed.

(** X12: a pass registers one transformer for each contributing extension
    and none for the others: the array behind the published transformer is
    as long as the list of contributing extensions. *)
Theorem one_transformer_per_contributor m extensions ts w' :
  registers getParameter extensions (world m) ts w' ->
  exists m',
    initializationPass getParameter extensions m = Returns m' /\
    length (frames m' !!! length (frames m))
    = length (List.filter contributes extensions).
Proof.
  intros Hreg. eexists. split; [by apply initializationPass_registers|].
  simpl. rewrite list_lookup_total_middle by done.
  by apply registers_length in Hreg.
Qed.

Lemma extensionLoop_app handlers extensions extensions' m :
  extensionLoop handlers (extensions ++ extensions') m
  = bind (extensionLoop handlers extensions m)
         (extensionLoop handlers extensions').
Proof.
  revert m. induction extensions as [|extension rest IH]; intros m; [done|].
  simpl. destruct (forEachExtension handlers extension m) as [e|m']; simpl;
    [done | apply IH].
Qed.

(** X13: a factory that throws ends the pass with its error: when the
    extensions before it register normally and the factory of a contributing
    extension throws, the pass throws the same value, whatever extensions
    follow. *)
Theorem throwing_factory_aborts_pass
  m extensions extension extensions' factory ts w1 err :
  registers getParameter extensions (world m) ts w1 ->
  contributes extension = true ->
  createSSRTransformer (parameter extension) = Some factory ->
  factory (getParameter extension) w1 = Throws err ->
  initializationPass getParameter (extensions ++ extension :: extensions') m
  = Throws err.
Proof.
  intros Hreg Hc Hf Hthrow. unfold initializationPass.
  change (onInitialize getParameter m) with
    ((onInitialize getParameter m).1,
     {| frames := frames m ++ [[]]; store := store m; world := world m |}).
  cbv beta iota. rewrite extensionLoop_app.
  rewrite (extensionLoop_registers getParameter m extensions ts _ w1)
    by done.
  rewrite bind_Returns. cbn [extensionLoop].
  unfold contributes in Hc. simpl. rewrite Hf in Hc |- *.
  destruct (truthy (reactSSR (exclude (settings extension)))); [done|].
  by rewrite Hthrow.
Qed.

(** X14: a pass keeps what was there: the arrays of earlier passes, and
    every store key other than "ssrTransformer". *)
Theorem pass_preserves_earlier_state m extensions m' :
  initializationPass getParameter extensions m = Returns m' ->
  take (length (frames m)) (frames m') = frames m /\
  length (frames m') = S (length (frames m)) /\
  forall key, key <> "ssrTransformer" ->
              getStoreKey key m' = getStoreKey key m.
Proof.
  unfold initializationPass.
  change (onInitialize getParameter m) with
    ((onInitialize getParameter m).1,
     {| frames := frames m ++ [[]]; store := store m; world := world m |}).
  cbv beta iota.
  assert (forall extensions m0 m1,
    extensionLoop (onInitialize getParameter m).1 extensions m0 = Returns m1 ->
    store m1 = store m0 /\
    length (frames m1) = length (frames m0) /\
    take (length (frames m)) (frames m1)
    = take (length (frames m)) (frames m0)) as Hloop.
  { clear. induction extensions as [|extension rest IH]; intros m0 m1.
    - simpl. by intros [= ->].
    - cbn [extensionLoop].
      destruct (forEachExtension _ extension m0) as [e|m0'] eqn:Hstep;
        simpl; [done|].
      intros Hrest. destruct (IH _ _ Hrest) as (Hs & Hl & Ht).
      rewrite Hs, Hl, Ht. clear IH Hrest Hs Hl Ht. simpl in Hstep.
      destruct (createSSRTransformer (parameter extension)) as [factory|];
        [|by injection Hstep as ->].
      destruct (truthy _); [by injection Hstep as ->|].
      destruct (factory _ _) as [e|[t w]]; simpl in Hstep; [done|].
      injection Hstep as <-. simpl. split; [done|].
      split; [by rewrite length_alter|].
      apply list_eq. intros i.
      destruct (decide (i < length (frames m))) as [Hlt|Hge].
      + rewrite !lookup_take_lt by done.
        apply list_lookup_alter_ne. lia.
      + by rewrite !lookup_take_ge by lia. }
  destruct (extensionLoop _ extensions _) as [e|m1] eqn:Hrun; simpl; [done|].
  intros [= <-]. destruct (Hloop _ _ _ Hrun) as (Hs & Hl & Ht). simpl in *.
  split; [by rewrite Ht, take_app_length|].
  split; [rewrite Hl, length_app; simpl; lia|].
  intros key Hkey. unfold getStoreKey. simpl.
  rewrite lookup_insert_ne by done. by rewrite Hs.
Qed.

(** X16: the handlers of an earlier pass cannot reach the transformer that
    a later pass published: a call of the earlier [forEachExtension] appends
    to the earlier array, and the transformer under the store key, which now
    belongs to the later pass, maps every element as before. *)
Theorem earlier_handlers_miss_later_pipeline
  m extensions1 ts1 w1 extensions2 ts2 w2 late factory t w3 :
  registers getParameter extensions1 (world m) ts1 w1 ->
  registers getParameter extensions2 w1 ts2 w2 ->
  contributes late = true ->
  createSSRTransformer (parameter late) = Some factory ->
  factory (getParameter late) w2 = Returns (t, w3) ->
  exists m1 m2 m3,
    initializationPass getParameter extensions1 m = Returns m1 /\
    initializationPass getParameter extensions2 m1 = Returns m2 /\
    forEachExtension (onInitialize getParameter m).1 late m2 = Returns m3 /\
    frames m3 !!! length (frames m) = ts1 ++ [t] /\
    forall x,
      callStoreKey "ssrTransformer" m3 x = callStoreKey "ssrTransformer" m2 x
      /\ callStoreKey "ssrTransformer" m2 x = foldTransformers ts2 x.
Proof.
  intros Hreg1 Hreg2 Hc Hf Hrun.
  pose proof (initializationPass_registers getParameter m extensions1 ts1 w1
                Hreg1) as Hpass1.
  set (m1 := {| frames := frames m ++ [ts1];
                store := <["ssrTransformer" :=
                   SsrTransformerClosure (length (frames m))]> (store m);
                world := w1 |}) in *.
  pose proof (initializationPass_registers getParameter m1 extensions2 ts2 w2
                Hreg2) as Hpass2.
  exists m1. eexists. eexists.
  split; [exact Hpass1|]. split; [exact Hpass2|].
  split; [by apply (forEachExtension_push getParameter m late _ factory t w3)|].
  unfold push, setWorld, m1. cbn [frames store world].
  assert (length (frames m) < length (frames m ++ [ts1])) as Hlt
    by (rewrite length_app; simpl; lia).
  split.
  - rewrite alter_app_l by done.
    rewrite lookup_total_app_l by (by rewrite length_alter).
    rewrite list_lookup_total_alter_eq by done.
    by rewrite list_lookup_total_middle.
  - intros x. rewrite (callStoreKey_published (frames m ++ [ts1]) ts2).
    split; [|by rewrite foldTransformers_forOf].
    unfold callStoreKey, getStoreKey. cbn [frames store world].
    rewrite lookup_insert_eq. rewrite alter_app_l by done.
    rewrite list_lookup_total_middle; [done|]. by rewrite length_alter.
Qed.

End PipelineMore.

Section CountingFactories.
Import ReactSSR.
Variable getParameter : @Extension nat unit nat -> unit.

Lemma registers_counting (extensions : list (@Extension nat unit nat)) :
  Forall (fun extension =>
            contributes extension = true ->
            exists t, createSSRTransformer (parameter extension)
                      = Some (Samples.counting t)) extensions ->
  forall calls, exists ts,
    registers getParameter extensions calls ts
      (calls + length (List.filter contributes extensions)).
Proof.
  induction 1 as [|extension rest Hhead _ IH]; intros calls.
  - exists []. simpl. rewrite Nat.add_0_r. constructor.
  - simpl. destruct (contributes extension) eqn:Hc.
    + destruct (Hhead eq_refl) as [t Ht].
      destruct (IH (S calls)) as [ts Hts]. exists (t :: ts).
      eapply registers_push; [done|exact Ht|reflexivity|].
      simpl. by rewrite Nat.add_succ_r.
    + destruct (IH calls) as [ts Hts]. exists ts.
      by apply registers_skip.
Qed.

(** X17: with factories that count their calls, a pass raises the counter by
    the number of contributing extensions: each of their factories is called
    once, and no other factory is called. *)
Theorem factories_called_once_each
  (extensions : list (@Extension nat unit nat)) (m : @Manager nat nat) :
  Forall (fun extension =>
            contributes extension = true ->
            exists t, createSSRTransformer (parameter extension)
                      = Some (Samples.counting t)) extensions ->
  exists m',
    initializationPass getParameter extensions m = Returns m' /\
    world m' = world m + length (List.filter contributes extensions).
Proof.
  intros Hall.
  destruct (registers_counting extensions Hall (world m)) as [ts Hts].
  eexists. split; [by apply initializationPass_registers|]. done.
Qed.

End CountingFactories.

Section PipelineMoreSamples.
Import ReactSSR Samples.

Lemma registers_first : registers getParameter [first] 0 [increment] 1.
Proof. eapply registers_push; [done..|]. constructor. Qed.

Lemma registers_second_after_first :
  registers getParameter [second] 1 [double] 2.
Proof. eapply registers_push; [done..|]. constructor. Qed.

Lemma ssrTransformer_splits_witness :
  ssrTransformer ([increment; failing] ++ [double]) 1
  = Throws (Thrown "boom").
Proof.
  apply (ssrTransformer_splits [increment; failing] [double] 1).
  reflexivity.
Defined.

Lemma one_transformer_per_contributor_witness :
  exists m',
    initializationPass getParameter [first; plain; second] manager0
    = Returns m' /\
    length (frames m' !!! 0) = 2.
Proof.
  apply (one_transformer_per_contributor getParameter manager0
           [first; plain; second] [increment; double] 2
           registers_first_plain_second).
Defined.

Lemma throwing_factory_aborts_pass_witness :
  initializationPass getParameter [first; throwingFactory; second] manager0
  = Throws (Thrown "factory called").
Proof.
  apply (throwing_factory_aborts_pass getParameter manager0 [first]
           throwingFactory [second] throwing [increment] 1
           (Thrown "factory called") registers_first eq_refl eq_refl eq_refl).
Defined.

Lemma pass_preserves_earlier_state_witness :
  exists m',
    initializationPass getParameter [first]
      (onCreate_afterExtensionLoop manager0) = Returns m' /\
    getStoreKey "components" m' = Some EmptyObject.
Proof.
  exists {| frames := [[increment]];
            store := <["ssrTransformer" := SsrTransformerClosure 0]>
                       (store (onCreate_afterExtensionLoop manager0));
            world := 1 |}.
  split; [reflexivity|].
  destruct (pass_preserves_earlier_state getParameter
              (onCreate_afterExtensionLoop manager0) [first] _ eq_refl)
    as (_ & _ & Hkeys).
  rewrite Hkeys by done. reflexivity.
Defined.

Lemma earlier_handlers_miss_later_pipeline_witness :
  exists m1 m2 m3,
    initializationPass getParameter [first] manager0 = Returns m1 /\
    initializationPass getParameter [second] m1 = Returns m2 /\
    forEachExtension (onInitialize getParameter manager0).1 first m2
    = Returns m3 /\
    callStoreKey "ssrTransformer" m3 5 = Returns 10.
Proof.
  destruct (earlier_handlers_miss_later_pipeline getParameter manager0
              [first] [increment] 1 [second] [double] 2 first
              (counting increment) increment 3
              registers_first registers_second_after_first
              eq_refl eq_refl eq_refl)
    as (m1 & m2 & m3 & H1 & H2 & H3 & _ & Hcall).
  exists m1, m2, m3. repeat (split; [done|]).
  destruct (Hcall 5) as [-> ->]. reflexivity.
Defined.

Lemma factories_called_once_each_witness :
  exists m',
    initializationPass getParameter [first; excluded; plain; second] manager0
    = Returns m' /\
    world m' = 2.
Proof.
  apply (factories_called_once_each getParameter
           [first; excluded; plain; second] manager0).
  repeat constructor.
  - intros _. by exists increment.
  - intros H. discriminate H.
  - intros H. discriminate H.
  - intros _. by exists double.
Defined.

End PipelineMoreSamples.

(** ** The helpers extension *)

Section AggregationMore.
Import Helpers.
Context {AnyFunction : Type}.
Implicit Types (m : @Manager AnyFunction) (f : @ViewFrame AnyFunction).
Implicit Types (entries : list (string * AnyFunction)).
Implicit Types (extensions : list (@Extension AnyFunction)).

Lemma forOfEntries_distinct_exact entries : forall f,
  NoDup entries.*1 ->
  (forall name, name ∈ entries.*1 -> name ∉ names f) ->
  forOfEntries entries f
  = Returns {| helpers := list_to_map entries ∪ helpers f;
               names := list_to_set entries.*1 ∪ names f |}.
Proof.
  induction entries as [|[name helper] rest IH]; intros f Hnd Hfresh.
  - simpl. rewrite (left_id_L ∅ (∪)), (left_id_L ∅ (∪)). by destruct f.
  - rewrite fmap_cons in Hnd, Hfresh. cbn [fst] in Hnd, Hfresh.
    apply NoDup_cons in Hnd as [Hname Hnd].
    cbn [forOfEntries].
    rewrite throwIfNameNotUnique_new by (apply Hfresh; by left).
    rewrite bind_Returns, IH; [|done|].
    + cbn [helpers names]. f_equal. f_equal.
      * rewrite list_to_map_cons, <- insert_union_l.
        rewrite insert_union_r; [done|].
        by apply not_elem_of_list_to_map_1.
      * rewrite fmap_cons, list_to_set_cons. cbn [fst].
        rewrite (assoc_L (∪)). f_equal. apply (comm_L (∪)).
    + intros name' Hin. cbn [names].
      assert (name' ∉ names f) by (apply Hfresh; by right).
      assert (name' <> name) by (intros ->; done).
      intros [?%elem_of_singleton|?]%elem_of_union; done.
Qed.

(** X18: when the contributed names are pairwise distinct, the record that
    the pass stores holds the contributed helpers and nothing else, and
    [names] holds exactly their names. *)
Theorem helpers_record_is_exact m extensions :
  NoDup (contributions extensions).*1 ->
  exists m',
    viewPass extensions m = Returns m' /\
    helpers (frames m' !!! length (frames m))
    = list_to_map (contributions extensions) /\
    names (frames m' !!! length (frames m))
    = list_to_set (contributions extensions).*1.
Proof.
  intros Hnd. eexists. rewrite viewPass_entries.
  rewrite forOfEntries_distinct_exact; [|done|].
  - rewrite bind_Returns. split; [reflexivity|].
    cbn [frames]. rewrite list_lookup_total_middle by done.
    cbn [helpers names]. by rewrite !(right_id_L ∅ (∪)).
  - intros name _. apply not_elem_of_empty.
Qed.

Lemma forOfEntries_names_dom entries : forall f f',
  forOfEntries entries f = Returns f' ->
  names f = dom (helpers f) ->
  names f' = dom (helpers f').
Proof.
  induction entries as [|[name helper] rest IH]; intros f f' Hrun Hinv.
  - by injection Hrun as <-.
  - cbn [forOfEntries] in Hrun.
    destruct (throwIfNameNotUnique name (names f) DUPLICATE_HELPER_NAMES)
      as [e|names'] eqn:Hcheck; simpl in Hrun; [done|].
    apply (IH _ _ Hrun). simpl.
    unfold throwIfNameNotUnique, invariant in Hcheck.
    destruct (bool_decide (name ∈ names f)); simpl in Hcheck; [done|].
    injection Hcheck as <-. by rewrite dom_insert_L, Hinv.
Qed.

(** X19: the loop keeps [names] equal to the set of keys of [helpers]: it
    holds after every run of the loop that returns, given that it held
    before, and so it holds for the frame of every pass that returns. *)
Theorem names_are_the_keys_of_helpers :
  (forall entries f f',
      forOfEntries entries f = Returns f' ->
      names f = dom (helpers f) ->
      names f' = dom (helpers f')) /\
  (forall m extensions m',
      viewPass extensions m = Returns m' ->
      names (frames m' !!! length (frames m))
      = dom (helpers (frames m' !!! length (frames m)))).
Proof.
  split; [apply forOfEntries_names_dom|].
  intros m extensions m'. rewrite viewPass_entries.
  destruct (forOfEntries _ _) as [e|f] eqn:Hrun; simpl; [done|].
  intros [= <-]. simpl. rewrite list_lookup_total_middle by done.
  apply (forOfEntries_names_dom _ _ _ Hrun). simpl. by rewrite dom_empty_L.
Qed.

Lemma forOfEntries_first_collision entries : forall f,
  ~ (NoDup entries.*1 /\
     forall name, name ∈ entries.*1 -> name ∉ names f) ->
  exists name l1 l3,
    forOfEntries entries f
    = Throws (RemirrorError DUPLICATE_HELPER_NAMES name) /\
    entries.*1 = l1 ++ name :: l3 /\
    NoDup l1 /\
    (forall name', name' ∈ l1 -> name' ∉ names f) /\
    (name ∈ names f \/ name ∈ l1).
Proof.
  induction entries as [|[name helper] rest IH]; intros f Hbad.
  - exfalso. apply Hbad. split; [constructor|].
    intros name Hin. by apply elem_of_nil in Hin.
  - rewrite fmap_cons in Hbad |- *. cbn [fst] in Hbad |- *.
    cbn [forOfEntries].
    destruct (decide (name ∈ names f)) as [Hseen|Hnew].
    + exists name, [], rest.*1.
      rewrite throwIfNameNotUnique_taken by done.
      split; [done|]. split; [done|]. split; [constructor|].
      split; [|by left]. intros name' Hin. by apply elem_of_nil in Hin.
    + rewrite throwIfNameNotUnique_new by done. rewrite bind_Returns.
      destruct (IH {| helpers := <[name := helper]> (helpers f);
                      names := {[name]} ∪ names f |})
        as (name' & l1 & l3 & Hrun & Heq & Hnd & Hfresh & Hwhere).
      { cbn [names]. intros [Hnd Hfresh]. apply Hbad. split.
        - apply NoDup_cons. split; [|done].
          intros Hin. apply (Hfresh name Hin).
          apply elem_of_union. left. by apply elem_of_singleton.
        - intros name' [->|Hin]%elem_of_cons; [done|].
          intros Hseen. apply (Hfresh name' Hin).
          apply elem_of_union. by right. }
      cbn [names] in Hfresh, Hwhere.
      exists name', (name :: l1), l3. split; [done|].
      split; [by rewrite Heq|]. split.
      { apply NoDup_cons. split; [|done]. intros Hin.
        apply (Hfresh name Hin). apply elem_of_union. left.
        by apply elem_of_singleton. }
      split.
      { intros n [->|Hin]%elem_of_cons; [done|]. intros Hseen.
        apply (Hfresh n Hin). apply elem_of_union. by right. }
      destruct Hwhere as [[->%elem_of_singleton|Hin]%elem_of_union|Hin].
      * right. by left.
      * by left.
      * right. by right.
Qed.

(** X20: when some name is contributed twice, the error names the first
    contribution, in the order of the pass, that repeats an earlier name:
    all names before it are pairwise distinct, and it is one of them. *)
Theorem first_repeated_name_is_reported m extensions :
  ~ NoDup (contributions extensions).*1 ->
  exists name l1 l3,
    viewPass extensions m
    = Throws (RemirrorError DUPLICATE_HELPER_NAMES name) /\
    (contributions extensions).*1 = l1 ++ name :: l3 /\
    NoDup l1 /\ name ∈ l1.
Proof.
  intros Hdup.
  destruct (forOfEntries_first_collision (contributions extensions)
              {| helpers := ∅; names := ∅ |})
    as (name & l1 & l3 & Hrun & Heq & Hnd & _ & Hwhere).
  { intros [Hnd _]. by apply Hdup. }
  exists name, l1, l3. rewrite viewPass_entries, Hrun.
  split; [done|]. split; [done|]. split; [done|].
  destruct Hwhere as [Hin|Hin]; [|done].
  by apply not_elem_of_empty in Hin.
Qed.

(** X21: only the sequence of contributed entries matters, not how the
    entries are spread over extensions: two lists of extensions with the same
    contributions give the same pass, so an extension without
    [createHelpers], or with an empty record, can be left out. *)
Theorem viewPass_depends_on_contributions m extensions extensions' :
  contributions extensions = contributions extensions' ->
  viewPass extensions m = viewPass extensions' m.
Proof. intros Heq. by rewrite !viewPass_entries, Heq. Qed.

Lemma forOfEntries_returns_inv entries f f' :
  forOfEntries entries f = Returns f' ->
  NoDup entries.*1 /\ forall name, name ∈ entries.*1 -> name ∉ names f.
Proof.
  intros Hrun.
  destruct (decide (NoDup entries.*1 /\
                    Forall (fun name => name ∉ names f) entries.*1))
    as [[Hnd Hfresh]|Hbad].
  - split; [done|]. by apply Forall_forall.
  - destruct (forOfEntries_collision entries f) as (name & Hthrow & _).
    + intros [Hnd Hfresh]. apply Hbad. split; [done|].
      by apply Forall_forall.
    + congruence.
Qed.

(** The state that a view pass leaves when it returns. *)
Lemma viewPass_returns_inv m extensions m' :
  viewPass extensions m = Returns m' ->
  NoDup (contributions extensions).*1 /\
  m' = {| frames := frames m ++
            [ {| helpers := list_to_map (contributions extensions);
                 names := list_to_set (contributions extensions).*1 |} ];
          store := <["helpers" := HelpersObject (length (frames m))]>
                     (store m);
          managerMethodParameter := managerMethodParameter m |}.
Proof.
  rewrite viewPass_entries.
  destruct (forOfEntries _ _) as [e|f] eqn:Hrun; simpl; [done|].
  intros [= <-].
  destruct (forOfEntries_returns_inv _ _ _ Hrun) as [Hnd Hfresh].
  split; [done|].
  rewrite forOfEntries_distinct_exact in Hrun by done.
  injection Hrun as <-. cbn [helpers names].
  by rewrite !(right_id_L ∅ (∪)).
Qed.

(** X22: during a later view pass, as long as its [afterExtensionLoop] has
    not run, the getter does not throw: it returns the record that the
    previous pass stored, without any helper of the pass under way. *)
Theorem getter_returns_previous_record_during_next_pass
  m extensions1 m1 extensions2 m2 :
  viewPass extensions1 (beforeExtensionLoop m) = Returns m1 ->
  extensionLoop (onView m1).1 extensions2 (onView m1).2 = Returns m2 ->
  callHelpers m2 = Returns (list_to_map (contributions extensions1)) /\
  callHelpers m1 = Returns (list_to_map (contributions extensions1)).
Proof.
  intros [Hnd ->]%viewPass_returns_inv Hloop.
  rewrite extensionLoop_entries in Hloop
    by (simpl; rewrite !length_app; simpl; lia).
  destruct (forOfEntries _ _) as [e|f2]; simpl in Hloop; [done|].
  injection Hloop as <-.
  unfold callHelpers, helpersGetter, getStoreKey, setFrame.
  cbn [frames store managerMethodParameter beforeExtensionLoop
       setManagerMethodParameter].
  rewrite !lookup_insert_eq. simpl. split.
  - rewrite list_lookup_total_insert_ne
      by (rewrite length_app; simpl; lia).
    rewrite lookup_total_app_l by (rewrite length_app; simpl; lia).
    by rewrite list_lookup_total_middle.
  - by rewrite list_lookup_total_middle.
Qed.


(** X24: the duplicate check also covers such a late call: when the late
    extension brings a name that the pass has registered, the call throws the
    duplicate-names error. *)
Theorem late_duplicate_is_rejected
  m extensions m1 late create name helper :
  viewPass extensions (beforeExtensionLoop m) = Returns m1 ->
  createHelpers late = Some create ->
  (name, helper) ∈ create tt ->
  name ∈ (contributions extensions).*1 ->
  exists name',
    forEachExtension (onView (beforeExtensionLoop m)).1 late m1
    = Throws (RemirrorError DUPLICATE_HELPER_NAMES name').
Proof.
  intros [Hnd ->]%viewPass_returns_inv Hcreate Hin Hseen.
  cbn [forEachExtension onView fst]. rewrite Hcreate.
  cbn [frames beforeExtensionLoop setManagerMethodParameter].
  rewrite list_lookup_total_middle by done.
  destruct (forOfEntries_collision (create tt)
              {| helpers := list_to_map (contributions extensions);
                 names := list_to_set (contributions extensions).*1 |})
    as (name' & Hthrow & _).
  - intros [_ Hfresh]. apply (Hfresh name).
    + apply list_elem_of_fmap. by exists (name, helper).
    + cbn [names]. by apply elem_of_list_to_set.
  - exists name'. by rewrite Hthrow.
Qed.

End AggregationMore.

Section AggregationMoreSamples.
Import Helpers HelperSamples.

Lemma helpers_record_is_exact_witness :
  exists m',
    viewPass [beautiful; silent; links] manager0 = Returns m' /\
    helpers (frames m' !!! 0)
    = list_to_map (contributions [beautiful; silent; links]) /\
    names (frames m' !!! 0)
    = list_to_set (contributions [beautiful; silent; links]).*1.
Proof.
  apply (helpers_record_is_exact manager0 [beautiful; silent; links]).
  by apply (bool_decide_unpack _).
Defined.

Lemma names_are_the_keys_of_helpers_witness :
  exists m',
    viewPass [links] manager0 = Returns m' /\
    names (frames m' !!! 0) = dom (helpers (frames m' !!! 0)).
Proof.
  eexists. split; [reflexivity|].
  apply (proj2 names_are_the_keys_of_helpers manager0 [links]).
  reflexivity.
Defined.

Lemma first_repeated_name_is_reported_witness :
  exists name l1 l3,
    viewPass [beautiful; links; clashing] manager0
    = Throws (RemirrorError DUPLICATE_HELPER_NAMES name) /\
    (contributions [beautiful; links; clashing]).*1 = l1 ++ name :: l3 /\
    NoDup l1 /\ name ∈ l1.
Proof.
  apply (first_repeated_name_is_reported manager0
           [beautiful; links; clashing]).
  by apply (bool_decide_unpack
              (~ NoDup (contributions [beautiful; links; clashing]).*1)).
Defined.

Lemma viewPass_depends_on_contributions_witness :
  viewPass [silent; links; silent] manager0 = viewPass [links] manager0.
Proof.
  apply (viewPass_depends_on_contributions manager0 [silent; links; silent]
           [links]).
  reflexivity.
Defined.

Lemma getter_returns_previous_record_during_next_pass_witness :
  exists m1 m2,
    viewPass [beautiful] (beforeExtensionLoop manager0) = Returns m1 /\
    extensionLoop (onView m1).1 [links] (onView m1).2 = Returns m2 /\
    callHelpers m2 = Returns (list_to_map [("checkBeautyLevel", 100)]).
Proof.
  do 2 eexists. split; [reflexivity|]. split; [reflexivity|].
  apply (getter_returns_previous_record_during_next_pass manager0
           [beautiful] _ [links] _ eq_refl eq_refl).
Defined.


Lemma late_duplicate_is_rejected_witness :
  exists m1 name',
    viewPass [links] (beforeExtensionLoop manager0) = Returns m1 /\
    forEachExtension (onView (beforeExtensionLoop manager0)).1 clashing m1
    = Throws (RemirrorError DUPLICATE_HELPER_NAMES name').
Proof.
  eexists.
  destruct (late_duplicate_is_rejected manager0 [links] _ clashing
              (fun _ => [("count", 3); ("isLink", 4)]) "isLink" 4
              eq_refl eq_refl) as [name' Hthrow].
  - by apply (bool_decide_unpack _).
  - by apply (bool_decide_unpack _).
  - exists name'. split; [reflexivity|exact Hthrow].
Defined.

End AggregationMoreSamples.
